(** * Mathematics.py: interview score calculator

    A shallow embedding of [calculate_scores] (src/Mathematics.py) and the
    properties of its scores.

    Number model.  Python's [int] and [float] values are read as real
    numbers ([R]): [0.3] is 3/10, [1e-6] is 1/1000000, [/] is exact
    division and [math.exp] is the real exponential.  What Python does on
    top of the arithmetic is kept: a division whose divisor is zero raises
    [ZeroDivisionError], a subscript [d['k']] on a missing key raises
    [KeyError], [d.get('k', v)] falls back to [v], conditional expressions
    evaluate only the branch they take, and the returned values go through
    [round(_, 2)].

    The reading is exact where the code rounds: it has no rounding error,
    no [inf] or [nan], and no [OverflowError] for numbers too large for a
    float.  The theorems stated over it are those whose conclusions do not
    hang on that difference: which key or divisor makes the run fail,
    bounds that rounding respects, values away from a rounding tie.  Where
    the rounding of binary64 itself decides a property, the lines concerned
    are embedded a second time, over the primitive floats, in
    [Module Binary64], and the property is settled there by evaluation.

    Data model.  A question is the dictionary of its numeric entries
    together with the optional list stored under ['H_types']; the
    configuration is the optional ['weights'] dictionary and the optional
    ['hint_budget'] number. *)

Set Warnings "-inexact-float".

From Stdlib Require Import Reals Lra Lia ZArith List Floats.
From stdpp Require Import gmap strings list fin_maps.

#[local] Open Scope R_scope.
#[local] Open Scope string_scope.

(** ** Failures and the result monad *)

Inductive error : Type :=
  | KeyError (key : string)
  | ZeroDivisionError.

Inductive result (A : Type) : Type :=
  | Ok (a : A)
  | Raise (e : error).
Arguments Ok {A} a.
Arguments Raise {A} e.

#[global] Instance result_ret : MRet result := fun A a => Ok a.

#[global] Instance result_bind : MBind result := fun A B k m =>
  match m with
  | Ok a => k a
  | Raise e => Raise e
  end.

Definition raises {A : Type} (m : result A) : Prop := ∃ e, m = Raise e.

(** ** Python primitives *)

(** [d[k]] *)
Definition getitem {V : Type} (d : gmap string V) (k : string) : result V :=
  match d !! k with
  | Some v => Ok v
  | None => Raise (KeyError k)
  end.

(** [a / b] *)
Definition truediv (a b : R) : result R :=
  if Req_dec_T b 0 then Raise ZeroDivisionError else Ok (a / b).

(** [sum(xs)] for a list of numbers *)
Definition sum (xs : list R) : R := fold_left Rplus xs 0.
Arguments sum : simpl never.

(** [sum(d.values())] *)
Definition sum_values (d : gmap string R) : R := sum (snd <$> map_to_list d).

(** The real-number reading of [round(x, 2)]: the nearest multiple of
    1/100, ties going to the even one. *)
Definition round_half_even (y : R) : Z :=
  let f := Int_part y in
  if Rlt_dec (y - IZR f) (1 / 2) then f
  else if Rlt_dec (1 / 2) (y - IZR f) then (f + 1)%Z
  else if Z.even f then f else (f + 1)%Z.

Definition round2 (x : R) : R := IZR (round_half_even (x * 100)) / 100.

(** ** Inputs and output *)

Record question : Type := {
  fields : gmap string R;
  H_types : option (list R)
}.

Record interview_config : Type := {
  weights : option (gmap string R);
  hint_budget : option R
}.

(** The returned dictionary, ["Details"] flattened. *)
Record report : Type := {
  Problem_Solving_Score : R;
  Coding_Proficiency_Score : R;
  Resilience_Score : R;
  Autonomy_Score : R;
  Overall_Score : R;
  Base_Score : R;
  Difficulty_Factor : R
}.

(** The lists and running totals of lines 21-27. *)
Record loop_state : Type := {
  ps_scores : list R;
  code_scores : list R;
  resilience_scores : list R;
  total_hints_score : R;
  total_difficulty : R
}.

Definition initial_state : loop_state :=
  {| ps_scores := []; code_scores := []; resilience_scores := [];
     total_hints_score := 0; total_difficulty := 0 |}.

Definition epsilon : R := 1 / 1000000.

(** ** 1. The per-question formulas (lines 33-53)

    Divisions that Python reaches only under a guard on the divisor
    ([if K_total > 0], [if T_total > 0], [if num_questions > 0],
    [if autonomy_denominator > 0]) cannot raise and are written with the
    plain [/]; the unguarded ones go through [truediv]. *)

Definition think_ratio_term (think_ratio : R) : R :=
  exp (- (think_ratio - 3 / 10) ^ 2).

Definition score_ps (coverage think_ratio : R) : R :=
  10 * (6 / 10 * coverage + 4 / 10 * Rmin 1 (think_ratio_term think_ratio)).

Definition improvement_factor (C_initial C_final C_target : R) : result R :=
  let improvement_numerator := C_initial - C_final in
  let improvement_denominator := C_initial - C_target + epsilon in
  ratio ← truediv improvement_numerator improvement_denominator;
  Ok (Rmax 0 (Rmin 1 ratio)).

Definition keystroke_efficiency (q : gmap string R) : result R :=
  K_total ← getitem q "K_total";
  if Rlt_dec 0 K_total then
    K_useful ← getitem q "K_useful";
    Ok (K_useful / K_total)
  else Ok 0.

Definition score_code (improvement S_lint efficiency : R) : R :=
  10 * (5 / 10 * improvement + 3 / 10 * S_lint + 2 / 10 * efficiency).

Definition stuck_ratio (q : gmap string R) : result R :=
  T_total ← getitem q "T_total";
  if Rlt_dec 0 T_total then
    T_stuck ← getitem q "T_stuck";
    Ok (T_stuck / T_total)
  else Ok 1.

Definition score_resilience (stuck S_sentiment : R) : R :=
  10 * ((1 - stuck) * S_sentiment).

(** One iteration of the [for q in questions_data] loop.  Subscripts
    appear in the order in which Python evaluates them; a key subscripted
    again right after a successful lookup (['C_initial'] on line 39, the
    divisor behind its own guard on lines 42 and 47) is looked up once,
    the second lookup having no way to fail. *)
Definition loop_body (st : loop_state) (q : question) : result loop_state :=
  let d := fields q in
  (* Problem-Solving Score *)
  T_think ← getitem d "T_think";
  T_total ← getitem d "T_total";
  think_ratio ← truediv T_think T_total;
  E_covered ← getitem d "E_covered";
  E_total ← getitem d "E_total";
  coverage ← truediv E_covered E_total;
  let ps := score_ps coverage think_ratio in
  (* Coding Proficiency Score *)
  C_initial ← getitem d "C_initial";
  C_final ← getitem d "C_final";
  C_target ← getitem d "C_target";
  improvement ← improvement_factor C_initial C_final C_target;
  efficiency ← keystroke_efficiency d;
  S_lint ← getitem d "S_lint";
  let code := score_code improvement S_lint efficiency in
  (* Resilience Score *)
  stuck ← stuck_ratio d;
  S_sentiment ← getitem d "S_sentiment";
  let resilience := score_resilience stuck S_sentiment in
  (* Accumulate totals for final scores *)
  let hints := sum (default [] (H_types q)) in
  Q_difficulty ← getitem d "Q_difficulty";
  Ok {| ps_scores := ps_scores st ++ [ps];
        code_scores := code_scores st ++ [code];
        resilience_scores := resilience_scores st ++ [resilience];
        total_hints_score := total_hints_score st + hints;
        total_difficulty := total_difficulty st + Q_difficulty |}.

Fixpoint for_each (questions_data : list question) (st : loop_state)
  : result loop_state :=
  match questions_data with
  | [] => Ok st
  | q :: rest => st' ← loop_body st q; for_each rest st'
  end.

(** ** 2. Averages and the Autonomy score (lines 56-63) *)

Definition avg_score (xs : list R) (num_questions : nat) : R :=
  if decide (0 < num_questions)%nat then sum xs / INR num_questions else 0.

Definition autonomy_term (total_hints autonomy_denominator : R) : R :=
  if Rlt_dec 0 autonomy_denominator
  then 1 - total_hints / autonomy_denominator
  else 1.

Definition score_autonomy (total_hints autonomy_denominator : R) : R :=
  10 * Rmax 0 (autonomy_term total_hints autonomy_denominator).

(** ** 3. The Overall score (lines 66-73) *)

Definition base_score (w : gmap string R)
    (avg_ps avg_code avg_resilience autonomy : R) : result R :=
  w_ps ← getitem w "ps";
  w_code ← getitem w "code";
  w_resilience ← getitem w "resilience";
  w_autonomy ← getitem w "autonomy";
  let base_score_numerator :=
    w_ps * avg_ps + w_code * avg_code +
    w_resilience * avg_resilience + w_autonomy * autonomy in
  let base_score_denominator := sum_values w in
  truediv base_score_numerator base_score_denominator.

Definition difficulty_factor (total_difficulty : R) (num_questions : nat) : R :=
  if decide (0 < num_questions)%nat
  then total_difficulty / (3 * INR num_questions)
  else 1.

Definition score_overall (base difficulty : R) : R :=
  base * (8 / 10 + 4 / 10 * difficulty).

(** Lines 56-73 after the loop: the seven values before rounding. *)
Definition aggregate (st : loop_state) (num_questions : nat)
    (interview_config : interview_config) : result report :=
  let avg_score_ps := avg_score (ps_scores st) num_questions in
  let avg_score_code := avg_score (code_scores st) num_questions in
  let avg_score_resilience := avg_score (resilience_scores st) num_questions in
  let autonomy_denominator :=
    total_difficulty st * default 1 (hint_budget interview_config) in
  let autonomy := score_autonomy (total_hints_score st) autonomy_denominator in
  w ← match weights interview_config with
      | Some w => Ok w
      | None => Raise (KeyError "weights")
      end;
  base ← base_score w avg_score_ps avg_score_code avg_score_resilience autonomy;
  let difficulty := difficulty_factor (total_difficulty st) num_questions in
  Ok {| Problem_Solving_Score := avg_score_ps;
        Coding_Proficiency_Score := avg_score_code;
        Resilience_Score := avg_score_resilience;
        Autonomy_Score := autonomy;
        Overall_Score := score_overall base difficulty;
        Base_Score := base;
        Difficulty_Factor := difficulty |}.

(** [calculate_scores] up to, and without, the final rounding. *)
Definition exact_scores (questions_data : list question)
    (interview_config : interview_config) : result report :=
  let num_questions := length questions_data in
  st ← for_each questions_data initial_state;
  aggregate st num_questions interview_config.

(** ** 4. The returned report (lines 76-86) *)

Definition round_report (r : report) : report :=
  {| Problem_Solving_Score := round2 (Problem_Solving_Score r);
     Coding_Proficiency_Score := round2 (Coding_Proficiency_Score r);
     Resilience_Score := round2 (Resilience_Score r);
     Autonomy_Score := round2 (Autonomy_Score r);
     Overall_Score := round2 (Overall_Score r);
     Base_Score := round2 (Base_Score r);
     Difficulty_Factor := round2 (Difficulty_Factor r) |}.

Definition calculate_scores (questions_data : list question)
    (interview_config : interview_config) : result report :=
  r ← exact_scores questions_data interview_config;
  Ok (round_report r).


(** ** The input contract (spec section 3) *)

(** The number stored under [k]; only read where the key is present. *)
Definition field (q : question) (k : string) : R := default 0 (fields q !! k).

Definition question_keys : list string :=
  ["T_think"; "T_total"; "T_stuck"; "E_covered"; "E_total";
   "C_initial"; "C_final"; "C_target"; "S_lint"; "K_useful"; "K_total";
   "S_sentiment"; "Q_difficulty"].

Definition weight_keys : list string := ["ps"; "code"; "resilience"; "autonomy"].

Record valid_question (q : question) : Prop := {
  vq_present : Forall (λ k, is_Some (fields q !! k)) question_keys;
  vq_think : 0 <= field q "T_think" <= field q "T_total";
  vq_stuck : 0 <= field q "T_stuck" <= field q "T_total";
  vq_total : 0 < field q "T_total";
  vq_covered : 0 <= field q "E_covered" <= field q "E_total";
  vq_expected : 0 < field q "E_total";
  vq_keystrokes : 0 <= field q "K_useful" <= field q "K_total";
  vq_lint : 0 <= field q "S_lint" <= 1;
  vq_sentiment : 0 <= field q "S_sentiment" <= 1;
  vq_hints : Forall (λ h, 0 <= h) (default [] (H_types q));
  vq_difficulty : 0 < field q "Q_difficulty"
}.

Record valid_weights (w : gmap string R) : Prop := {
  vw_present : Forall (λ k, is_Some (w !! k)) weight_keys;
  vw_nonneg : map_Forall (λ _ v, 0 <= v) w;
  vw_sum : 0 < sum_values w
}.

Definition valid_config (c : interview_config) : Prop :=
  ∃ w, weights c = Some w ∧ valid_weights w.

(** The denominator of line 39. *)
Definition improvement_denominator (q : question) : R :=
  field q "C_initial" - field q "C_target" + epsilon.

(** The four competency values within the nominal 0-10 band. *)
Definition competencies_in_range (r : report) : Prop :=
  0 <= Problem_Solving_Score r <= 10 ∧
  0 <= Coding_Proficiency_Score r <= 10 ∧
  0 <= Resilience_Score r <= 10 ∧
  0 <= Autonomy_Score r <= 10.

(** ** The closed form of the loop

    What the three score lists and the two totals hold after the loop, as
    maps and sums over the question list ([for_each_closed_form]). *)

Definition question_ps (q : question) : R :=
  score_ps (field q "E_covered" / field q "E_total")
           (field q "T_think" / field q "T_total").

Definition question_improvement (q : question) : R :=
  Rmax 0 (Rmin 1 ((field q "C_initial" - field q "C_final")
                   / improvement_denominator q)).

Definition question_efficiency (q : question) : R :=
  if Rlt_dec 0 (field q "K_total")
  then field q "K_useful" / field q "K_total" else 0.

Definition question_code (q : question) : R :=
  score_code (question_improvement q) (field q "S_lint") (question_efficiency q).

Definition question_stuck (q : question) : R :=
  if Rlt_dec 0 (field q "T_total")
  then field q "T_stuck" / field q "T_total" else 1.

Definition question_resilience (q : question) : R :=
  score_resilience (question_stuck q) (field q "S_sentiment").

Definition question_hints (q : question) : R := sum (default [] (H_types q)).

Definition after_loop (st : loop_state) (qs : list question) : loop_state :=
  {| ps_scores := ps_scores st ++ (question_ps <$> qs);
     code_scores := code_scores st ++ (question_code <$> qs);
     resilience_scores := resilience_scores st ++ (question_resilience <$> qs);
     total_hints_score := total_hints_score st + sum (question_hints <$> qs);
     total_difficulty :=
       total_difficulty st + sum ((λ q, field q "Q_difficulty") <$> qs) |}.

(** A question on which no step of the loop body raises. *)
Definition evaluable (q : question) : Prop :=
  Forall (λ k, is_Some (fields q !! k)) question_keys ∧
  field q "T_total" ≠ 0 ∧ field q "E_total" ≠ 0 ∧
  improvement_denominator q ≠ 0.

(** The keys every iteration subscripts whatever the data: ['K_useful']
    and ['T_stuck'] sit in the taken branch of a conditional expression,
    and ['H_types'] is read with [get]. *)
Definition always_read : list string :=
  ["T_think"; "T_total"; "E_covered"; "E_total"; "C_initial"; "C_final";
   "C_target"; "K_total"; "S_lint"; "S_sentiment"; "Q_difficulty"].

(** Questions and configurations with a key missing where the run
    subscripts it. *)
Definition lacks_read_key (q : question) : Prop :=
  (∃ k, k ∈ always_read ∧ fields q !! k = None) ∨
  (fields q !! "K_useful" = None ∧ 0 < field q "K_total") ∨
  (fields q !! "T_stuck" = None ∧ 0 <= field q "T_total").

Definition lacks_weight (c : interview_config) : Prop :=
  match weights c with
  | None => True
  | Some w => ∃ k, k ∈ weight_keys ∧ w !! k = None
  end.

(** The two keys read with [get], with the fallback written in. *)
Definition with_default_hints (q : question) : question :=
  {| fields := fields q; H_types := Some (default [] (H_types q)) |}.

Definition with_default_budget (c : interview_config) : interview_config :=
  {| weights := weights c; hint_budget := Some (default 1 (hint_budget c)) |}.


(** ** Concrete inputs *)

(** A question dictionary from its thirteen numbers, in the order in which
    the example data of the source lists them. *)
Definition metrics (T_think T_total T_stuck E_covered E_total
    C_initial C_final C_target S_lint K_useful K_total
    S_sentiment Q_difficulty : R) : gmap string R :=
  list_to_map
    [("T_think", T_think); ("T_total", T_total); ("T_stuck", T_stuck);
     ("E_covered", E_covered); ("E_total", E_total);
     ("C_initial", C_initial); ("C_final", C_final); ("C_target", C_target);
     ("S_lint", S_lint); ("K_useful", K_useful); ("K_total", K_total);
     ("S_sentiment", S_sentiment); ("Q_difficulty", Q_difficulty)].

Definition weights_of (ps code resilience autonomy : R) : gmap string R :=
  list_to_map
    [("ps", ps); ("code", code); ("resilience", resilience);
     ("autonomy", autonomy)].

(** "Question 1: Medium" of the example usage (lines 94-103). *)
Definition question_1 : question :=
  {| fields := metrics 120 600 45 3 4 2 1 1 (85 / 100) 400 550 (8 / 10) 2;
     H_types := Some [1] |}.

(** [interview_setup] of the example usage (lines 117-125). *)
Definition interview_setup : interview_config :=
  {| weights := Some (weights_of (4 / 10) (3 / 10) (1 / 10) (2 / 10));
     hint_budget := Some 1 |}.

(** What [calculate_scores] returns for [question_1] alone
    ([question_1_returns]). *)
Definition question_1_report : report :=
  {| Problem_Solving_Score := 846 / 100;
     Coding_Proficiency_Score := 900 / 100;
     Resilience_Score := 740 / 100;
     Autonomy_Score := 500 / 100;
     Overall_Score := 835 / 100;
     Base_Score := 783 / 100;
     Difficulty_Factor := 67 / 100 |}.

(** A flawless answer to a question of difficulty 6. *)
Definition hard_question : question :=
  {| fields := metrics 3 10 0 1 1 2 0 1 1 1 1 1 6;
     H_types := Some [] |}.

(** What [calculate_scores] returns for [hard_question] alone
    ([hard_question_scores]). *)
Definition hard_question_report : report :=
  {| Problem_Solving_Score := 10; Coding_Proficiency_Score := 10;
     Resilience_Score := 10; Autonomy_Score := 10; Overall_Score := 16;
     Base_Score := 10; Difficulty_Factor := 2 |}.

(** [question_1] with no time recorded at all. *)
Definition zero_time_question : question :=
  {| fields := metrics 0 0 0 3 4 2 1 1 (85 / 100) 400 550 (8 / 10) 2;
     H_types := Some [1] |}.

(** [hard_question] and [interview_setup] with the two defaulted keys
    left out. *)
Definition question_without_hints : question :=
  {| fields := fields hard_question; H_types := None |}.

Definition setup_without_budget : interview_config :=
  {| weights := weights interview_setup; hint_budget := None |}.

(** [question_1] with the ['S_lint'] entry removed, and with a sentiment
    signal of zero. *)
Definition question_without_lint : question :=
  {| fields := delete "S_lint" (fields question_1); H_types := Some [1] |}.

Definition disheartened_question : question :=
  {| fields := metrics 120 600 45 3 4 2 1 1 (85 / 100) 400 550 0 2;
     H_types := Some [1] |}.

(** ** When the run returns *)

(** The questions on which one loop iteration reaches its end: the keys
    of [always_read] are present, the three unguarded divisors are
    non-zero, and the two keys behind a guard are present when the guard
    lets them be read. *)
Definition runs (q : question) : Prop :=
  Forall (λ k, is_Some (fields q !! k)) always_read ∧
  field q "T_total" ≠ 0 ∧ field q "E_total" ≠ 0 ∧
  improvement_denominator q ≠ 0 ∧
  (0 < field q "K_total" → is_Some (fields q !! "K_useful")) ∧
  (0 < field q "T_total" → is_Some (fields q !! "T_stuck")).

(** The configurations on which lines 66-70 reach their end. *)
Definition usable_config (c : interview_config) : Prop :=
  ∃ w, weights c = Some w ∧
       Forall (λ k, is_Some (w !! k)) weight_keys ∧ sum_values w ≠ 0.

(** ** The example usage (lines 90-128) *)

(** "Question 2: Hard" (lines 104-113). *)
Definition question_2 : question :=
  {| fields := metrics 300 1200 150 4 6 (25 / 10) (15 / 10) (15 / 10)
                 (70 / 100) 800 1100 (7 / 10) 3;
     H_types := Some [1; 2] |}.

Definition candidate_interview_data : list question := [question_1; question_2].

Definition final_scores : result report :=
  calculate_scores candidate_interview_data interview_setup.

(** The report the example usage prints ([final_scores_value]). *)
Definition final_scores_report : report :=
  {| Problem_Solving_Score := 823 / 100;
     Coding_Proficiency_Score := 878 / 100;
     Resilience_Score := 676 / 100;
     Autonomy_Score := 200 / 100;
     Overall_Score := 793 / 100;
     Base_Score := 700 / 100;
     Difficulty_Factor := 83 / 100 |}.

(** ** Further concrete inputs *)

(** [question_1] with no expected solution elements. *)
Definition uncovered_question : question :=
  {| fields := metrics 120 600 45 0 0 2 1 1 (85 / 100) 400 550 (8 / 10) 2;
     H_types := Some [1] |}.


Definition no_allowance_setup : interview_config :=
  {| weights := weights interview_setup; hint_budget := Some 0 |}.

(** ** The arithmetic of lines 38-84 in binary64

    The lines that need no [math.exp], over the primitive floats: every
    [+], [-], [*], [/] and comparison is the IEEE 754 binary64 operation
    Python performs, in the order and grouping of the source.  Numbers
    enter as doubles: Python floats, or integers a double holds exactly.
    A dictionary is the list of its items in insertion order, the order
    in which [sum(w.values())] adds them. *)

Module Binary64.

#[local] Open Scope float_scope.

(** [a / b] *)
Definition truediv (a b : float) : result float :=
  if b =? 0 then Raise ZeroDivisionError else Ok (a / b).

(** [sum(xs)]: from 0, left to right *)
Definition sum (xs : list float) : float := fold_left PrimFloat.add xs 0.

(** [max(0, x)] and [min(1, x)]: the first argument unless the second
    compares beyond it *)
Definition max_0 (x : float) : float := if 0 <? x then x else 0.
Definition min_1 (x : float) : float := if x <? 1 then x else 1.

Definition of_nat (n : nat) : float :=
  PrimFloat.of_uint63 (Uint63.of_Z (Z.of_nat n)).

(** The decimal value of [round(x, 2)], in hundredths: the exact value
    of the double, rounded to the nearest multiple of 1/100, ties to
    even.  ([round] returns the double nearest to that decimal.) *)
Definition hundredths (x : float) : option Z :=
  match Prim2SF x with
  | S754_zero _ => Some 0%Z
  | S754_finite s m e =>
      let p := (Zpos m * 100)%Z in
      let n :=
        if (0 <=? e)%Z then (p * 2 ^ e)%Z
        else
          let d := (2 ^ (- e))%Z in
          let q := (p / d)%Z in
          let r := (p mod d)%Z in
          if (2 * r <? d)%Z then q
          else if (d <? 2 * r)%Z then (q + 1)%Z
          else if Z.even q then q else (q + 1)%Z in
      Some (if s then (- n)%Z else n)
  | _ => None
  end.

Definition epsilon : float := 1e-6.

(** Lines 38-40. *)
Definition improvement_factor (C_initial C_final C_target : float)
  : result float :=
  let improvement_numerator := C_initial - C_final in
  let improvement_denominator := C_initial - C_target + epsilon in
  ratio ← truediv improvement_numerator improvement_denominator;
  Ok (max_0 (min_1 ratio)).

(** Lines 42-43. *)
Definition keystroke_efficiency (K_useful K_total : float) : float :=
  if 0 <? K_total then K_useful / K_total else 0.

Definition score_code (improvement S_lint efficiency : float) : float :=
  10 * (0.5 * improvement + 0.3 * S_lint + 0.2 * efficiency).

(** Lines 47-48. *)
Definition stuck_ratio (T_stuck T_total : float) : float :=
  if 0 <? T_total then T_stuck / T_total else 1.

Definition score_resilience (stuck S_sentiment : float) : float :=
  10 * ((1 - stuck) * S_sentiment).

(** Line 52, once per question: [total_hints_score += sum(H_types)]. *)
Definition add_hints (total_hints_score : float) (H_types : list float)
  : float :=
  total_hints_score + sum H_types.

Definition total_hints (hints : list (list float)) : float :=
  fold_left add_hints hints 0.

(** The lists and running totals after the loop. *)
Record loop_state : Type := {
  ps_scores : list float;
  code_scores : list float;
  resilience_scores : list float;
  total_hints_score : float;
  total_difficulty : float
}.

Definition initial_state : loop_state :=
  {| ps_scores := []; code_scores := []; resilience_scores := [];
     total_hints_score := 0; total_difficulty := 0 |}.

Record interview_config : Type := {
  weights : option (list (string * float));
  hint_budget : option float
}.

Record report : Type := {
  Problem_Solving_Score : float;
  Coding_Proficiency_Score : float;
  Resilience_Score : float;
  Autonomy_Score : float;
  Overall_Score : float;
  Base_Score : float;
  Difficulty_Factor : float
}.

(** [w[k]] *)
Fixpoint getitem (w : list (string * float)) (k : string) : result float :=
  match w with
  | [] => Raise (KeyError k)
  | (k', v) :: rest => if decide (k = k') then Ok v else getitem rest k
  end.

(** Lines 56-58. *)
Definition avg_score (xs : list float) (num_questions : nat) : float :=
  if decide (0 < num_questions)%nat then sum xs / of_nat num_questions else 0.

(** Lines 61-63. *)
Definition autonomy_term (total_hints autonomy_denominator : float) : float :=
  if 0 <? autonomy_denominator
  then 1 - total_hints / autonomy_denominator
  else 1.

Definition score_autonomy (total_hints autonomy_denominator : float) : float :=
  10 * max_0 (autonomy_term total_hints autonomy_denominator).

(** Lines 66-70. *)
Definition base_score (w : list (string * float))
    (avg_ps avg_code avg_resilience autonomy : float) : result float :=
  w_ps ← getitem w "ps";
  w_code ← getitem w "code";
  w_resilience ← getitem w "resilience";
  w_autonomy ← getitem w "autonomy";
  let base_score_numerator :=
    w_ps * avg_ps + w_code * avg_code +
    w_resilience * avg_resilience + w_autonomy * autonomy in
  let base_score_denominator := sum (snd <$> w) in
  truediv base_score_numerator base_score_denominator.

(** Lines 72-73. *)
Definition difficulty_factor (total_difficulty : float) (num_questions : nat)
  : float :=
  if decide (0 < num_questions)%nat
  then total_difficulty / of_nat (3 * num_questions)
  else 1.

Definition score_overall (base difficulty : float) : float :=
  base * (0.8 + 0.4 * difficulty).

(** Lines 56-73 on the state the loop has left. *)
Definition aggregate (st : loop_state) (num_questions : nat)
    (interview_config : interview_config) : result report :=
  let avg_score_ps := avg_score (ps_scores st) num_questions in
  let avg_score_code := avg_score (code_scores st) num_questions in
  let avg_score_resilience := avg_score (resilience_scores st) num_questions in
  let autonomy_denominator :=
    total_difficulty st * default 1 (hint_budget interview_config) in
  let autonomy := score_autonomy (total_hints_score st) autonomy_denominator in
  w ← match weights interview_config with
      | Some w => Ok w
      | None => Raise (KeyError "weights")
      end;
  base ← base_score w avg_score_ps avg_score_code avg_score_resilience autonomy;
  let difficulty := difficulty_factor (total_difficulty st) num_questions in
  Ok {| Problem_Solving_Score := avg_score_ps;
        Coding_Proficiency_Score := avg_score_code;
        Resilience_Score := avg_score_resilience;
        Autonomy_Score := autonomy;
        Overall_Score := score_overall base difficulty;
        Base_Score := base;
        Difficulty_Factor := difficulty |}.

(** *** Inputs *)

Definition weights_of (ps code resilience autonomy : float)
  : list (string * float) :=
  [("ps", ps); ("code", code); ("resilience", resilience);
   ("autonomy", autonomy)].

(** No questions, and all the weight on Autonomy. *)
Definition autonomy_only_setup : interview_config :=
  {| weights := Some (weights_of 0 0 0 0.49); hint_budget := Some 1 |}.




End Binary64.
(** * Properties *)

(** ** The result monad and the primitives *)

Lemma bind_Ok {A B : Type} (m : result A) (k : A → result B) (b : B) :
  m ≫= k = Ok b ↔ ∃ a, m = Ok a ∧ k a = Ok b.
Proof.
  destruct m as [a|e]; simpl.
  - split; [eauto | intros (a' & [= <-] & H); exact H].
  - split; [discriminate | intros (a' & [=] & _)].
Qed.

Lemma bind_raises_l {A B : Type} (m : result A) (k : A → result B) :
  raises m → raises (m ≫= k).
Proof. intros [e ->]. exists e. reflexivity. Qed.

Lemma bind_raises_r {A B : Type} (m : result A) (k : A → result B) :
  (∀ a, raises (k a)) → raises (m ≫= k).
Proof. intros H. destruct m as [a|e]; [apply H | exists e; reflexivity]. Qed.

Lemma Ok_not_raises {A : Type} (a : A) : ¬ raises (Ok a).
Proof. intros [e [=]]. Qed.

Lemma getitem_Some {V : Type} (d : gmap string V) (k : string) (v : V) :
  d !! k = Some v → getitem d k = Ok v.
Proof. unfold getitem. intros ->. reflexivity. Qed.

Lemma getitem_None {V : Type} (d : gmap string V) (k : string) :
  d !! k = None → getitem d k = Raise (KeyError k).
Proof. unfold getitem. intros ->. reflexivity. Qed.

Lemma getitem_Ok {V : Type} (d : gmap string V) (k : string) (v : V) :
  getitem d k = Ok v ↔ d !! k = Some v.
Proof.
  unfold getitem. destruct (d !! k); split; intros [=]; subst; reflexivity.
Qed.

Lemma truediv_Ok (a b : R) : b ≠ 0 → truediv a b = Ok (a / b).
Proof. intros Hb. unfold truediv. destruct (Req_dec_T b 0); [contradiction | reflexivity]. Qed.

Lemma truediv_zero (a b : R) : b = 0 → truediv a b = Raise ZeroDivisionError.
Proof. intros Hb. unfold truediv. destruct (Req_dec_T b 0); [reflexivity | contradiction]. Qed.

Lemma truediv_inv (a b c : R) : truediv a b = Ok c → b ≠ 0 ∧ c = a / b.
Proof.
  unfold truediv. destruct (Req_dec_T b 0); intros [=]. split; [assumption | congruence].
Qed.

Lemma Rlt_dec_true {A : Type} (a b : R) (x y : A) :
  a < b → (if Rlt_dec a b then x else y) = x.
Proof. intros H. destruct (Rlt_dec a b); [reflexivity | contradiction]. Qed.

Lemma Rlt_dec_false {A : Type} (a b : R) (x y : A) :
  ¬ a < b → (if Rlt_dec a b then x else y) = y.
Proof. intros H. destruct (Rlt_dec a b); [contradiction | reflexivity]. Qed.

(** [sum] *)

Lemma fold_left_Rplus (xs : list R) (a : R) :
  fold_left Rplus xs a = a + sum xs.
Proof.
  unfold sum. revert a. induction xs as [|x xs IH]; intros a; simpl.
  - lra.
  - rewrite (IH (a + x)), (IH (0 + x)). lra.
Qed.

Lemma sum_nil : sum [] = 0.
Proof. reflexivity. Qed.

Lemma sum_cons (x : R) (xs : list R) : sum (x :: xs) = x + sum xs.
Proof. unfold sum at 1. simpl. rewrite fold_left_Rplus. lra. Qed.

Lemma sum_Permutation (xs ys : list R) : xs ≡ₚ ys → sum xs = sum ys.
Proof.
  induction 1 as [|x xs ys _ IH|x y xs|xs ys zs _ IH1 _ IH2].
  - reflexivity.
  - rewrite !sum_cons, IH. reflexivity.
  - rewrite !sum_cons. lra.
  - congruence.
Qed.

Lemma sum_bounds (lo hi : R) (xs : list R) :
  Forall (λ x, lo <= x <= hi) xs →
  lo * INR (length xs) <= sum xs <= hi * INR (length xs).
Proof.
  induction 1 as [|x xs Hx _ IH].
  - rewrite sum_nil. simpl. lra.
  - rewrite sum_cons. change (length (x :: xs)) with (S (length xs)).
    rewrite S_INR. lra.
Qed.

Lemma sum_nonneg (xs : list R) : Forall (λ x, 0 <= x) xs → 0 <= sum xs.
Proof.
  induction 1 as [|x xs Hx _ IH]; [rewrite sum_nil | rewrite sum_cons]; lra.
Qed.

(** [sum(d.values())] *)

Lemma sum_values_empty : sum_values ∅ = 0.
Proof. unfold sum_values. rewrite map_to_list_empty. reflexivity. Qed.

Lemma sum_values_insert (d : gmap string R) (k : string) (v : R) :
  d !! k = None → sum_values (<[k:=v]> d) = v + sum_values d.
Proof.
  intros Hk. unfold sum_values.
  rewrite (sum_Permutation _ (snd <$> (k, v) :: map_to_list d)).
  - rewrite fmap_cons, sum_cons. reflexivity.
  - apply fmap_Permutation, map_to_list_insert, Hk.
Qed.


(** [round(_, 2)] *)

Lemma Int_part_bounds (y : R) : IZR (Int_part y) <= y < IZR (Int_part y) + 1.
Proof. destruct (base_Int_part y). lra. Qed.

Lemma Int_part_unique (y : R) (n : Z) : IZR n <= y < IZR n + 1 → Int_part y = n.
Proof. intros H. symmetry. apply Int_part_spec. lra. Qed.

Lemma round_half_even_near (y : R) (n : Z) :
  IZR n - 1 / 2 < y < IZR n + 1 / 2 → round_half_even y = n.
Proof.
  intros Hy. unfold round_half_even.
  destruct (Rle_lt_dec (IZR n) y) as [Hle|Hlt].
  - rewrite (Int_part_unique y n) by lra.
    rewrite Rlt_dec_true by lra. reflexivity.
  - rewrite (Int_part_unique y (n - 1)) by (rewrite minus_IZR; lra).
    rewrite minus_IZR, Rlt_dec_false, Rlt_dec_true by lra. lia.
Qed.

Lemma round_half_even_IZR (n : Z) : round_half_even (IZR n) = n.
Proof. apply round_half_even_near. lra. Qed.

Lemma round_half_even_cases (y : R) :
  round_half_even y = Int_part y ∨ round_half_even y = (Int_part y + 1)%Z.
Proof.
  unfold round_half_even.
  destruct (Rlt_dec _ _); [auto|]. destruct (Rlt_dec _ _); [auto|].
  destruct (Z.even _); auto.
Qed.

Lemma round_half_even_ge (y : R) (a : Z) : IZR a <= y → (a <= round_half_even y)%Z.
Proof.
  intros Ha. assert (a <= Int_part y)%Z.
  { apply Z.lt_succ_r, lt_IZR. rewrite succ_IZR.
    pose proof (Int_part_bounds y). lra. }
  destruct (round_half_even_cases y); lia.
Qed.

Lemma round_half_even_le (y : R) (b : Z) : y <= IZR b → (round_half_even y <= b)%Z.
Proof.
  intros Hb. destruct (Rle_lt_or_eq_dec _ _ Hb) as [Hlt| ->].
  - assert (Int_part y < b)%Z.
    { apply lt_IZR. pose proof (Int_part_bounds y). lra. }
    destruct (round_half_even_cases y); lia.
  - rewrite round_half_even_IZR. lia.
Qed.

Lemma round2_near (x : R) (n : Z) :
  IZR n / 100 - 5 / 1000 < x < IZR n / 100 + 5 / 1000 → round2 x = IZR n / 100.
Proof.
  intros Hx. unfold round2. rewrite (round_half_even_near _ n); [reflexivity | lra].
Qed.

Lemma round2_exact (x : R) (n : Z) : x = IZR n / 100 → round2 x = x.
Proof. intros ->. apply round2_near. lra. Qed.

Lemma round2_bounds (x : R) (a b : Z) :
  IZR a <= x <= IZR b → IZR a <= round2 x <= IZR b.
Proof.
  intros [Ha Hb]. unfold round2.
  pose proof (round_half_even_ge (x * 100) (a * 100)) as Hge.
  pose proof (round_half_even_le (x * 100) (b * 100)) as Hle.
  rewrite mult_IZR in Hge, Hle.
  apply IZR_le in Hge; [|lra]. apply IZR_le in Hle; [|lra].
  rewrite mult_IZR in Hge, Hle. lra.
Qed.

(** ** The per-question formulas *)

Lemma think_ratio_term_bounds (r : R) : 0 < think_ratio_term r <= 1.
Proof.
  unfold think_ratio_term. split; [apply exp_pos|].
  rewrite <- exp_0. set (y := r - 3 / 10).
  destruct (Req_dec y 0) as [->|Hy].
  - right. f_equal. lra.
  - left. apply exp_increasing. nra.
Qed.

Lemma score_ps_bounds (coverage r : R) :
  0 <= coverage <= 1 → 0 <= score_ps coverage r <= 10.
Proof.
  intros Hc. unfold score_ps.
  pose proof (think_ratio_term_bounds r) as Ht.
  rewrite Rmin_right by lra. lra.
Qed.

Lemma clamp_bounds (x : R) : 0 <= Rmax 0 (Rmin 1 x) <= 1.
Proof.
  split; [apply Rmax_l|].
  apply Rmax_lub; [lra | apply Rmin_l].
Qed.

Lemma score_code_bounds (improvement lint efficiency : R) :
  0 <= improvement <= 1 → 0 <= lint <= 1 → 0 <= efficiency <= 1 →
  0 <= score_code improvement lint efficiency <= 10.
Proof. unfold score_code. lra. Qed.

Lemma score_resilience_bounds (stuck sentiment : R) :
  0 <= stuck <= 1 → 0 <= sentiment <= 1 →
  0 <= score_resilience stuck sentiment <= 10.
Proof. unfold score_resilience. nra. Qed.

Lemma ratio_bounds (a b : R) : 0 <= a <= b → 0 < b → 0 <= a / b <= 1.
Proof.
  intros Ha Hb. pose proof (Rinv_0_lt_compat b Hb) as Hi.
  assert (b * / b = 1) as H1 by (apply Rinv_r; lra).
  unfold Rdiv. split; nra.
Qed.

(** ** The loop *)

Lemma getitem_field (q : question) (k : string) :
  is_Some (fields q !! k) → getitem (fields q) k = Ok (field q k).
Proof.
  intros [v Hv]. unfold field. rewrite Hv. apply getitem_Some, Hv.
Qed.

Lemma field_lookup (q : question) (k : string) (v : R) :
  fields q !! k = Some v → field q k = v.
Proof. unfold field. intros ->. reflexivity. Qed.

Ltac present H k :=
  let Hk := fresh "H" in
  assert (is_Some (fields _ !! k)) as Hk
    by (eapply Forall_forall in H; [exact H | set_solver]);
  rewrite (getitem_field _ k Hk); clear Hk.

Lemma loop_body_evaluable (st : loop_state) (q : question) :
  evaluable q → loop_body st q = Ok (after_loop st [q]).
Proof.
  intros (Hp & Htotal & Hexp & Hden). unfold loop_body.
  present Hp "T_think". present Hp "T_total". simpl.
  rewrite truediv_Ok by assumption. simpl.
  present Hp "E_covered". present Hp "E_total". simpl.
  rewrite truediv_Ok by assumption. simpl.
  present Hp "C_initial". present Hp "C_final". present Hp "C_target". simpl.
  unfold improvement_factor. rewrite truediv_Ok by assumption. simpl.
  assert (keystroke_efficiency (fields q) = Ok (question_efficiency q)) as ->.
  { unfold keystroke_efficiency, question_efficiency.
    present Hp "K_total". simpl.
    destruct (Rlt_dec 0 (field q "K_total")); [|reflexivity].
    present Hp "K_useful". reflexivity. }
  simpl. present Hp "S_lint". simpl.
  assert (stuck_ratio (fields q) = Ok (question_stuck q)) as ->.
  { unfold stuck_ratio, question_stuck.
    present Hp "T_total". simpl.
    destruct (Rlt_dec 0 (field q "T_total")); [|reflexivity].
    present Hp "T_stuck". reflexivity. }
  simpl. present Hp "S_sentiment". simpl. present Hp "Q_difficulty". simpl.
  unfold after_loop. simpl. do 2 f_equal.
  - rewrite sum_cons, sum_nil. fold (question_hints q). lra.
  - rewrite sum_cons, sum_nil. lra.
Qed.

Lemma after_loop_cons (st : loop_state) (q : question) (qs : list question) :
  after_loop (after_loop st [q]) qs = after_loop st (q :: qs).
Proof.
  unfold after_loop. simpl. rewrite <- !app_assoc. simpl.
  rewrite !sum_cons, !sum_nil. f_equal; unfold fmap; lra.
Qed.

Lemma for_each_closed_form (qs : list question) (st : loop_state) :
  Forall evaluable qs → for_each qs st = Ok (after_loop st qs).
Proof.
  intros Hqs. revert st. induction Hqs as [|q qs Hq _ IH]; intros st; simpl.
  - unfold after_loop. simpl. rewrite !app_nil_r, sum_nil, !Rplus_0_r.
    destruct st; reflexivity.
  - rewrite (loop_body_evaluable st q Hq). simpl.
    rewrite IH. f_equal. apply after_loop_cons.
Qed.

Lemma for_each_raises (qs : list question) (st : loop_state) :
  Exists (λ q, ∀ st', raises (loop_body st' q)) qs → raises (for_each qs st).
Proof.
  intros Hqs. revert st. induction Hqs as [q qs Hq|q qs _ IH]; intros st; simpl.
  - apply bind_raises_l, Hq.
  - apply bind_raises_r. intros st'. apply IH.
Qed.

(** The first failure of the loop is the failure of the whole loop. *)
Lemma for_each_first_raise (q : question) (qs : list question)
    (st : loop_state) (e : error) :
  loop_body st q = Raise e → for_each (q :: qs) st = Raise e.
Proof. simpl. intros ->. reflexivity. Qed.

Ltac skip_to_raise H :=
  first
    [ apply bind_raises_l;
      solve [ eexists; apply getitem_None, H
            | unfold keystroke_efficiency, stuck_ratio;
              apply bind_raises_l; eexists; apply getitem_None, H ]
    | apply bind_raises_r; intros ?; skip_to_raise H ].

Lemma loop_body_missing (st : loop_state) (q : question) (k : string) :
  k ∈ always_read → fields q !! k = None → raises (loop_body st q).
Proof.
  intros Hk Hq. unfold always_read in Hk. unfold loop_body.
  repeat (apply elem_of_cons in Hk as [->|Hk]); [skip_to_raise Hq ..|].
  apply elem_of_nil in Hk as [].
Qed.

Lemma loop_body_zero_total (st : loop_state) (q : question) :
  is_Some (fields q !! "T_think") → fields q !! "T_total" = Some 0 →
  loop_body st q = Raise ZeroDivisionError.
Proof.
  intros [t Ht] H0. unfold loop_body.
  rewrite (getitem_Some _ _ _ Ht), (getitem_Some _ _ _ H0). simpl.
  rewrite truediv_zero by reflexivity. reflexivity.
Qed.

Lemma loop_body_zero_total_raises (st : loop_state) (q : question) :
  fields q !! "T_total" = Some 0 → raises (loop_body st q).
Proof.
  intros H0. destruct (fields q !! "T_think") as [t|] eqn:Ht.
  - exists ZeroDivisionError. apply loop_body_zero_total; [eauto | assumption].
  - apply (loop_body_missing st q "T_think"); [set_solver | assumption].
Qed.

Lemma exact_scores_closed_form (qs : list question) (cfg : interview_config) :
  Forall evaluable qs →
  exact_scores qs cfg = aggregate (after_loop initial_state qs) (length qs) cfg.
Proof.
  intros Hqs. unfold exact_scores. rewrite for_each_closed_form by assumption.
  reflexivity.
Qed.

Lemma exact_scores_raises (qs : list question) (cfg : interview_config) :
  Exists (λ q, ∀ st, raises (loop_body st q)) qs → raises (exact_scores qs cfg).
Proof. intros H. unfold exact_scores. apply bind_raises_l, for_each_raises, H. Qed.

Lemma calculate_scores_raises (qs : list question) (cfg : interview_config) :
  raises (exact_scores qs cfg) → raises (calculate_scores qs cfg).
Proof. apply bind_raises_l. Qed.

Lemma calculate_scores_Ok (qs : list question) (cfg : interview_config)
    (r : report) :
  exact_scores qs cfg = Ok r → calculate_scores qs cfg = Ok (round_report r).
Proof. unfold calculate_scores. intros ->. reflexivity. Qed.

Lemma calculate_scores_inv (qs : list question) (cfg : interview_config)
    (r : report) :
  calculate_scores qs cfg = Ok r →
  ∃ r0, exact_scores qs cfg = Ok r0 ∧ r = round_report r0.
Proof.
  unfold calculate_scores. intros H. apply bind_Ok in H as (r0 & H0 & [= <-]).
  eauto.
Qed.

(** ** Ranges under the input contract *)

Lemma valid_question_evaluable (q : question) :
  valid_question q → improvement_denominator q ≠ 0 → evaluable q.
Proof.
  intros [] Hden. unfold evaluable. repeat split; [assumption | lra | lra | assumption].
Qed.

Lemma question_ps_bounds (q : question) :
  valid_question q → 0 <= question_ps q <= 10.
Proof. intros []. apply score_ps_bounds, ratio_bounds; assumption. Qed.

Lemma question_code_bounds (q : question) :
  valid_question q → 0 <= question_code q <= 10.
Proof.
  intros []. apply score_code_bounds; [apply clamp_bounds | assumption |].
  unfold question_efficiency. destruct (Rlt_dec _ _); [|lra].
  apply ratio_bounds; assumption.
Qed.

Lemma question_resilience_bounds (q : question) :
  valid_question q → 0 <= question_resilience q <= 10.
Proof.
  intros []. apply score_resilience_bounds; [|assumption].
  unfold question_stuck. rewrite Rlt_dec_true by assumption.
  apply ratio_bounds; assumption.
Qed.

Lemma avg_score_bounds (xs : list R) (n : nat) :
  Forall (λ x, 0 <= x <= 10) xs → length xs = n → 0 <= avg_score xs n <= 10.
Proof.
  intros Hxs <-. unfold avg_score. case_decide as Hn; [|lra].
  pose proof (sum_bounds 0 10 xs Hxs) as Hs.
  assert (0 < INR (length xs)) as Hpos by (apply lt_0_INR; lia).
  pose proof (Rinv_0_lt_compat _ Hpos) as Hi.
  assert (INR (length xs) * / INR (length xs) = 1) as H1 by (apply Rinv_r; lra).
  unfold Rdiv. split; nra.
Qed.

Lemma score_autonomy_bounds (total_hints denominator : R) :
  0 <= total_hints → 0 <= score_autonomy total_hints denominator <= 10.
Proof.
  intros Hh. unfold score_autonomy, autonomy_term.
  pose proof (Rmax_l 0 (if Rlt_dec 0 denominator
                         then 1 - total_hints / denominator else 1)) as Hl.
  split; [lra|].
  assert (Rmax 0 (if Rlt_dec 0 denominator
                  then 1 - total_hints / denominator else 1) <= 1); [|lra].
  apply Rmax_lub; [lra|]. destruct (Rlt_dec 0 denominator) as [Hd|Hd]; [|lra].
  pose proof (Rinv_0_lt_compat _ Hd). unfold Rdiv. nra.
Qed.

Lemma weights_present (w : gmap string R) :
  Forall (λ k, is_Some (w !! k)) weight_keys →
  ∃ a b c d, w !! "ps" = Some a ∧ w !! "code" = Some b ∧
             w !! "resilience" = Some c ∧ w !! "autonomy" = Some d.
Proof.
  unfold weight_keys. intros H.
  apply Forall_cons in H as [[a Ha] H]. apply Forall_cons in H as [[b Hb] H].
  apply Forall_cons in H as [[c Hc] H]. apply Forall_cons in H as [[d Hd] _].
  eauto 10.
Qed.

Lemma after_loop_valid (qs : list question) :
  Forall valid_question qs →
  let st := after_loop initial_state qs in
  Forall (λ x, 0 <= x <= 10) (ps_scores st) ∧ length (ps_scores st) = length qs ∧
  Forall (λ x, 0 <= x <= 10) (code_scores st) ∧
  length (code_scores st) = length qs ∧
  Forall (λ x, 0 <= x <= 10) (resilience_scores st) ∧
  length (resilience_scores st) = length qs ∧
  0 <= total_hints_score st.
Proof.
  intros Hqs. simpl. rewrite !length_fmap.
  repeat split; try reflexivity.
  - apply Forall_fmap. eapply Forall_impl; [exact Hqs|]. apply question_ps_bounds.
  - apply Forall_fmap. eapply Forall_impl; [exact Hqs|]. apply question_code_bounds.
  - apply Forall_fmap. eapply Forall_impl; [exact Hqs|].
    apply question_resilience_bounds.
  - rewrite Rplus_0_l. apply sum_nonneg, Forall_fmap.
    eapply Forall_impl; [exact Hqs|]. intros q Hq. apply sum_nonneg, Hq.
Qed.

(** ** Concrete inputs *)

(** Reads the entries of a literal dictionary, leaving the numbers as
    written. *)
Ltac eval_fields :=
  repeat match goal with
  | |- context [field ?q ?k] =>
      let H := fresh in
      eassert (field q k = _) as H by (apply field_lookup; reflexivity);
      rewrite H; clear H
  end;
  cbn [snd].

Ltac all_present :=
  repeat (apply Forall_cons; split; [eexists; reflexivity|]); constructor.

Lemma sum_values_weights_of (a b c d : R) :
  sum_values (weights_of a b c d) = a + b + c + d.
Proof.
  unfold weights_of. simpl.
  rewrite !sum_values_insert, sum_values_empty by reflexivity. lra.
Qed.

Lemma valid_weights_of (a b c d : R) :
  0 <= a → 0 <= b → 0 <= c → 0 <= d → 0 < a + b + c + d →
  valid_weights (weights_of a b c d).
Proof.
  intros Ha Hb Hc Hd Hsum. split.
  - unfold weight_keys. all_present.
  - unfold weights_of. simpl.
    repeat (apply map_Forall_insert_2; [assumption|]). apply map_Forall_empty.
  - rewrite sum_values_weights_of. assumption.
Qed.

Lemma valid_interview_setup : valid_config interview_setup.
Proof. eexists; split; [reflexivity|]. apply valid_weights_of; lra. Qed.

Lemma valid_question_1 : valid_question question_1.
Proof.
  split; eval_fields; try lra.
  - unfold question_keys. all_present.
  - simpl. repeat constructor. lra.
Qed.

Lemma question_1_denominator : improvement_denominator question_1 ≠ 0.
Proof. unfold improvement_denominator, epsilon. eval_fields. lra. Qed.

(** ** What a returning loop has computed *)

Lemma getitem_field_inv (q : question) (k : string) (v : R) :
  getitem (fields q) k = Ok v → v = field q k.
Proof. intros H. apply getitem_Ok, field_lookup in H. congruence. Qed.

Lemma keystroke_efficiency_inv (q : question) (v : R) :
  keystroke_efficiency (fields q) = Ok v → v = question_efficiency q.
Proof.
  unfold keystroke_efficiency, question_efficiency. intros H.
  apply bind_Ok in H as (K_total & HK & H).
  apply getitem_field_inv in HK as ->.
  destruct (Rlt_dec 0 (field q "K_total")); [|congruence].
  apply bind_Ok in H as (K_useful & HU & H).
  apply getitem_field_inv in HU as ->. congruence.
Qed.

Lemma stuck_ratio_inv (q : question) (v : R) :
  stuck_ratio (fields q) = Ok v → v = question_stuck q.
Proof.
  unfold stuck_ratio, question_stuck. intros H.
  apply bind_Ok in H as (T_total & HT & H).
  apply getitem_field_inv in HT as ->.
  destruct (Rlt_dec 0 (field q "T_total")); [|congruence].
  apply bind_Ok in H as (T_stuck & HS & H).
  apply getitem_field_inv in HS as ->. congruence.
Qed.

Lemma improvement_factor_inv (q : question) (v : R) :
  improvement_factor (field q "C_initial") (field q "C_final")
    (field q "C_target") = Ok v →
  improvement_denominator q ≠ 0 ∧ v = question_improvement q.
Proof.
  unfold improvement_factor, question_improvement. intros H.
  apply bind_Ok in H as (ratio & Hr & [= <-]).
  apply truediv_inv in Hr as [Hden ->]. split; [exact Hden | reflexivity].
Qed.

Ltac next_item H :=
  let v := fresh "v" in
  let Hv := fresh "Hv" in
  apply bind_Ok in H as (v & Hv & H);
  first [ apply getitem_field_inv in Hv as ->
        | apply truediv_inv in Hv as [? ->]
        | apply keystroke_efficiency_inv in Hv as ->
        | apply stuck_ratio_inv in Hv as ->
        | apply improvement_factor_inv in Hv as [? ->] ].

Lemma loop_body_inv (st st' : loop_state) (q : question) :
  loop_body st q = Ok st' → st' = after_loop st [q].
Proof.
  unfold loop_body. intros H. do 15 next_item H.
  injection H as <-. unfold after_loop. simpl. f_equal.
  - rewrite sum_cons, sum_nil. fold (question_hints q). lra.
  - rewrite sum_cons, sum_nil. lra.
Qed.

Lemma for_each_inv (qs : list question) (st st' : loop_state) :
  for_each qs st = Ok st' → st' = after_loop st qs.
Proof.
  revert st. induction qs as [|q qs IH]; intros st; simpl.
  - intros [= <-]. unfold after_loop. simpl.
    rewrite !app_nil_r, sum_nil, !Rplus_0_r. destruct st; reflexivity.
  - intros H. apply bind_Ok in H as (st1 & H1 & H).
    apply loop_body_inv in H1 as ->. apply IH in H as ->.
    apply after_loop_cons.
Qed.

Lemma exact_scores_inv (qs : list question) (cfg : interview_config)
    (r : report) :
  exact_scores qs cfg = Ok r →
  aggregate (after_loop initial_state qs) (length qs) cfg = Ok r.
Proof.
  unfold exact_scores. intros H. apply bind_Ok in H as (st & Hst & H).
  apply for_each_inv in Hst as ->. exact H.
Qed.

(** ** A single question under literal weights *)

Lemma avg_score_single (x : R) : avg_score ([] ++ [x]) 1 = x.
Proof.
  unfold avg_score. case_decide; [|lia]. simpl app.
  rewrite sum_cons, sum_nil. simpl INR. lra.
Qed.

Lemma base_score_weights_of (a b c d x1 x2 x3 x4 : R) :
  a + b + c + d ≠ 0 →
  base_score (weights_of a b c d) x1 x2 x3 x4 =
    Ok ((a * x1 + b * x2 + c * x3 + d * x4) / (a + b + c + d)).
Proof.
  intros Hsum. unfold base_score.
  change (getitem (weights_of a b c d) "ps") with (Ok a).
  change (getitem (weights_of a b c d) "code") with (Ok b).
  change (getitem (weights_of a b c d) "resilience") with (Ok c).
  change (getitem (weights_of a b c d) "autonomy") with (Ok d).
  simpl. rewrite sum_values_weights_of, truediv_Ok by assumption. reflexivity.
Qed.

Lemma exact_scores_single (q : question) (a b c d : R) (budget : option R) :
  evaluable q → a + b + c + d ≠ 0 →
  let autonomy :=
    score_autonomy (question_hints q)
      (field q "Q_difficulty" * default 1 budget) in
  let base :=
    (a * question_ps q + b * question_code q +
     c * question_resilience q + d * autonomy) / (a + b + c + d) in
  exact_scores [q] {| weights := Some (weights_of a b c d);
                      hint_budget := budget |} =
    Ok {| Problem_Solving_Score := question_ps q;
          Coding_Proficiency_Score := question_code q;
          Resilience_Score := question_resilience q;
          Autonomy_Score := autonomy;
          Overall_Score := score_overall base (field q "Q_difficulty" / 3);
          Base_Score := base;
          Difficulty_Factor := field q "Q_difficulty" / 3 |}.
Proof.
  intros Hq Hsum autonomy base.
  rewrite exact_scores_closed_form by (constructor; [exact Hq | constructor]).
  unfold aggregate, after_loop, initial_state.
  cbn [ps_scores code_scores resilience_scores total_hints_score
       total_difficulty weights hint_budget fmap list_fmap length].
  rewrite !avg_score_single, !sum_cons, !sum_nil.
  replace (0 + (question_hints q + 0)) with (question_hints q) by lra.
  replace (0 + (field q "Q_difficulty" + 0)) with (field q "Q_difficulty") by lra.
  fold autonomy. cbn [mbind result_bind].
  rewrite base_score_weights_of by assumption. fold base.
  cbn [mbind result_bind].
  assert (difficulty_factor (field q "Q_difficulty") 1
          = field q "Q_difficulty" / 3) as ->; [|reflexivity].
  unfold difficulty_factor. case_decide; [|lia]. simpl INR. f_equal. lra.
Qed.

Lemma clamp_above (x : R) : 1 <= x → Rmax 0 (Rmin 1 x) = 1.
Proof. intros Hx. rewrite Rmin_left by assumption. apply Rmax_right. lra. Qed.

Lemma clamp_below (x : R) : x <= 0 → Rmax 0 (Rmin 1 x) = 0.
Proof. intros Hx. rewrite Rmin_right by lra. apply Rmax_left. assumption. Qed.

Lemma clamp_inside (x : R) : 0 <= x <= 1 → Rmax 0 (Rmin 1 x) = x.
Proof. intros Hx. rewrite Rmin_right by lra. apply Rmax_right. lra. Qed.

Lemma ratio_above_one (a b : R) : 0 < b → b <= a → 1 <= a / b.
Proof.
  intros Hb Hab. pose proof (Rinv_0_lt_compat b Hb) as Hi.
  assert (b * / b = 1) as H1 by (apply Rinv_r; lra). unfold Rdiv. nra.
Qed.

Lemma think_ratio_term_peak : think_ratio_term (3 / 10) = 1.
Proof.
  unfold think_ratio_term.
  replace (- (3 / 10 - 3 / 10) ^ 2) with 0 by (simpl; lra). apply exp_0.
Qed.

Lemma evaluable_hard_question : evaluable hard_question.
Proof.
  unfold evaluable, improvement_denominator, epsilon. eval_fields.
  repeat split; try lra. unfold question_keys. all_present.
Qed.

Lemma hard_question_ps : question_ps hard_question = 10.
Proof.
  unfold question_ps, score_ps. eval_fields.
  rewrite think_ratio_term_peak, Rmin_left by lra. lra.
Qed.

Lemma hard_question_code : question_code hard_question = 10.
Proof.
  unfold question_code, question_improvement, question_efficiency,
    improvement_denominator, score_code, epsilon. eval_fields.
  rewrite Rlt_dec_true by lra.
  rewrite clamp_above by (apply ratio_above_one; lra). lra.
Qed.

Lemma hard_question_resilience : question_resilience hard_question = 10.
Proof.
  unfold question_resilience, question_stuck, score_resilience. eval_fields.
  rewrite Rlt_dec_true by lra. lra.
Qed.

Lemma score_autonomy_no_hints (denominator : R) : score_autonomy 0 denominator = 10.
Proof.
  unfold score_autonomy, autonomy_term.
  destruct (Rlt_dec 0 denominator); rewrite Rmax_right by lra; lra.
Qed.

Lemma exact_scores_hard_question (budget : option R) (hints : option (list R)) :
  default [] hints = [] →
  exact_scores [{| fields := fields hard_question; H_types := hints |}]
    {| weights := weights interview_setup; hint_budget := budget |} =
  Ok hard_question_report.
Proof.
  intros Hhints. set (q := {| fields := _; H_types := hints |}).
  pose proof (exact_scores_single q (4 / 10) (3 / 10) (1 / 10) (2 / 10) budget)
    as H.
  cbv zeta in H. unfold interview_setup; cbn [weights]. rewrite H; clear H.
  - change (question_ps q) with (question_ps hard_question).
    change (question_code q) with (question_code hard_question).
    change (question_resilience q) with (question_resilience hard_question).
    change (field q "Q_difficulty") with 6.
    replace (question_hints q) with 0
      by (unfold question_hints, q; cbn [H_types]; rewrite Hhints, sum_nil; reflexivity).
    rewrite hard_question_ps, hard_question_code, hard_question_resilience,
      score_autonomy_no_hints.
    unfold score_overall, hard_question_report. f_equal. f_equal; lra.
  - exact evaluable_hard_question.
  - lra.
Qed.

Lemma round_hard_question_report :
  round_report hard_question_report = hard_question_report.
Proof.
  unfold round_report, hard_question_report.
  cbn [Problem_Solving_Score Coding_Proficiency_Score Resilience_Score
       Autonomy_Score Overall_Score Base_Score Difficulty_Factor].
  rewrite (round2_exact 10 1000), (round2_exact 16 1600),
    (round2_exact 2 200) by lra.
  reflexivity.
Qed.

Lemma hard_question_exact_scores :
  exact_scores [hard_question] interview_setup = Ok hard_question_report.
Proof. exact (exact_scores_hard_question (Some 1) (Some []) eq_refl). Qed.

Lemma hard_question_scores :
  calculate_scores [hard_question] interview_setup = Ok hard_question_report.
Proof.
  rewrite (calculate_scores_Ok _ _ _ hard_question_exact_scores).
  f_equal. apply round_hard_question_report.
Qed.


Lemma valid_hard_question : valid_question hard_question.
Proof.
  split; eval_fields; try lra.
  - unfold question_keys. all_present.
  - simpl. constructor.
Qed.

Lemma aggregate_overall (st : loop_state) (n : nat) (cfg : interview_config)
    (r : report) :
  aggregate st n cfg = Ok r →
  Difficulty_Factor r = difficulty_factor (total_difficulty st) n ∧
  Overall_Score r = Base_Score r * (8 / 10 + 4 / 10 * Difficulty_Factor r).
Proof.
  unfold aggregate. intros H.
  apply bind_Ok in H as (w & _ & H). apply bind_Ok in H as (base & _ & H).
  injection H as <-. simpl. split; reflexivity.
Qed.

(** C2. With at least one question, a returned overall score is
    [base_score * (0.8 + 0.4 * difficulty_factor)], where
    [difficulty_factor] is the sum of the [Q_difficulty] entries over
    [3 * N]; nothing clamps it: the valid one-question input
    [hard_question] (difficulty 6, so factor 2) under [interview_setup]
    has overall score 16, and 16 is what is returned after rounding. *)
Theorem overall_score_unclamped (qs : list question) (cfg : interview_config)
    (r : report) :
  (0 < length qs)%nat → exact_scores qs cfg = Ok r →
  (Difficulty_Factor r =
     sum ((λ q, field q "Q_difficulty") <$> qs) / (3 * INR (length qs)) ∧
   Overall_Score r = Base_Score r * (8 / 10 + 4 / 10 * Difficulty_Factor r) ∧
   calculate_scores qs cfg = Ok (round_report r)) ∧
  (valid_question hard_question ∧ valid_config interview_setup ∧
   exact_scores [hard_question] interview_setup = Ok hard_question_report ∧
   calculate_scores [hard_question] interview_setup = Ok hard_question_report ∧
   1 < Difficulty_Factor hard_question_report ∧
   10 < Overall_Score hard_question_report).
Proof.
  intros Hn Hr. split.
  - pose proof (calculate_scores_Ok _ _ _ Hr) as Hc.
    apply exact_scores_inv, aggregate_overall in Hr as [Hd Ho].
    split; [|split; assumption].
    rewrite Hd. unfold difficulty_factor. case_decide; [|lia].
    cbn [after_loop total_difficulty initial_state]. f_equal. lra.
  - split; [exact valid_hard_question|].
    split; [exact valid_interview_setup|].
    split; [exact hard_question_exact_scores|].
    split; [exact hard_question_scores|].
    simpl. lra.
Qed.

Lemma overall_score_unclamped_witness :
  Overall_Score hard_question_report =
    Base_Score hard_question_report *
    (8 / 10 + 4 / 10 * Difficulty_Factor hard_question_report) ∧
  Overall_Score hard_question_report = 16.
Proof.
  split; [|reflexivity].
  apply (overall_score_unclamped [hard_question] interview_setup
           hard_question_report (Nat.lt_0_succ 0) hard_question_exact_scores).
Defined.

(** ** Zero total time *)

Lemma zero_total_time_always_raises (qs : list question)
    (cfg : interview_config) :
  Exists (λ q, fields q !! "T_total" = Some 0) qs →
  raises (calculate_scores qs cfg).
Proof.
  intros H. apply calculate_scores_raises, exact_scores_raises.
  eapply Exists_impl; [exact H|]. intros q Hq st.
  apply loop_body_zero_total_raises, Hq.
Qed.

(** C3. A question with [T_total = 0] and every other entry within the
    contract: the guard of line 47 on its own does yield the fallback
    [stuck_ratio = 1], but the run never gets there, since line 33 divides
    [T_think] by [T_total] unguarded and raises [ZeroDivisionError]. *)
Theorem zero_total_time_raises :
  field zero_time_question "T_total" = 0 ∧
  stuck_ratio (fields zero_time_question) = Ok 1 ∧
  calculate_scores [zero_time_question] interview_setup =
    Raise ZeroDivisionError.
Proof.
  split; [reflexivity|]. split.
  - unfold stuck_ratio.
    change (getitem (fields zero_time_question) "T_total") with (Ok 0).
    cbn [mbind result_bind]. apply Rlt_dec_false. lra.
  - unfold calculate_scores, exact_scores.
    rewrite (for_each_first_raise zero_time_question [] initial_state
               ZeroDivisionError); [reflexivity|].
    apply loop_body_zero_total; [eexists|]; reflexivity.
Qed.

(** ** The first question of the example usage *)

Lemma exp_hundredth_bounds : 99 / 100 < exp (- (1 / 100)) < 9901 / 10000.
Proof.
  split.
  - pose proof (exp_ineq1 (- (1 / 100))). lra.
  - rewrite exp_Ropp. pose proof (exp_ineq1 (1 / 100)) as H.
    assert (101 / 100 < exp (1 / 100)) as Hlt by lra.
    apply Rinv_lt_contravar in Hlt; [|pose proof (exp_pos (1 / 100)); nra].
    lra.
Qed.

Lemma evaluable_question_1 : evaluable question_1.
Proof.
  destruct valid_question_1. unfold evaluable.
  repeat split; [assumption | lra | lra | exact question_1_denominator].
Qed.

Lemma question_1_ps : 846 / 100 < question_ps question_1 < 84604 / 10000.
Proof.
  unfold question_ps, score_ps, think_ratio_term. eval_fields.
  replace (- (120 / 600 - 3 / 10) ^ 2) with (- (1 / 100)) by (simpl; lra).
  pose proof exp_hundredth_bounds as He.
  rewrite Rmin_right by lra. lra.
Qed.

Lemma question_1_code : 90045 / 10000 < question_code question_1 < 90046 / 10000.
Proof.
  unfold question_code, question_improvement, question_efficiency,
    improvement_denominator, score_code, epsilon. eval_fields.
  rewrite Rlt_dec_true by lra.
  rewrite clamp_inside by lra. lra.
Qed.

Lemma question_1_resilience : question_resilience question_1 = 74 / 10.
Proof.
  unfold question_resilience, question_stuck, score_resilience. eval_fields.
  rewrite Rlt_dec_true by lra. lra.
Qed.

Lemma question_1_autonomy :
  score_autonomy (question_hints question_1)
    (field question_1 "Q_difficulty" * default 1 (Some 1)) = 5.
Proof.
  unfold score_autonomy, autonomy_term, question_hints. eval_fields.
  change (default [] (H_types question_1)) with [1].
  change (default 1 (Some 1)) with 1.
  rewrite sum_cons, sum_nil.
  rewrite Rlt_dec_true by lra. rewrite Rmax_right by lra. lra.
Qed.

Lemma question_1_exact_scores :
  ∃ r, exact_scores [question_1] interview_setup = Ok r ∧
       round_report r = question_1_report ∧
       Autonomy_Score r = 5 ∧ Difficulty_Factor r = 2 / 3.
Proof.
  pose proof (exact_scores_single question_1 (4 / 10) (3 / 10) (1 / 10)
                (2 / 10) (Some 1) evaluable_question_1 ltac:(lra)) as H.
  cbv zeta in H. eexists. split; [exact H|]. clear H.
  rewrite question_1_autonomy, question_1_resilience.
  change (field question_1 "Q_difficulty") with 2.
  pose proof question_1_ps as Hps. pose proof question_1_code as Hcode.
  set (ps := question_ps question_1) in *.
  set (code := question_code question_1) in *.
  split; [|split; [reflexivity | cbn [Difficulty_Factor]; lra]].
  unfold round_report, question_1_report, score_overall.
  cbn [Problem_Solving_Score Coding_Proficiency_Score Resilience_Score
       Autonomy_Score Overall_Score Base_Score Difficulty_Factor].
  rewrite (round2_near ps 846), (round2_near code 900),
    (round2_near (74 / 10) 740), (round2_near 5 500),
    (round2_near (2 / 3) 67) by lra.
  rewrite (round2_near _ 835), (round2_near _ 783) by lra.
  reflexivity.
Qed.

Lemma question_1_returns :
  calculate_scores [question_1] interview_setup = Ok question_1_report.
Proof.
  destruct question_1_exact_scores as (r & Hr & Hround & _).
  rewrite (calculate_scores_Ok _ _ _ Hr), Hround. reflexivity.
Qed.

(** C4, as the code computes it.  For the single question of the
    scenario, with the scenario's weights and hint budget,
    [calculate_scores] returns Problem-Solving 8.46, Coding Proficiency
    9.00, Resilience 7.40 and Autonomy 5.00 (one hint against a budget of
    2), with base score 7.83, overall score 8.35 and a difficulty factor
    of 2/3, returned as 0.67. *)
Theorem question_1_scores :
  calculate_scores [question_1] interview_setup = Ok question_1_report ∧
  question_hints question_1 = 1 ∧
  field question_1 "Q_difficulty" * default 1 (hint_budget interview_setup) = 2 ∧
  ∃ r, exact_scores [question_1] interview_setup = Ok r ∧
       Autonomy_Score r = 5 ∧ Difficulty_Factor r = 2 / 3.
Proof.
  split; [exact question_1_returns|]. split; [|split].
  - unfold question_hints. change (default [] (H_types question_1)) with [1].
    rewrite sum_cons, sum_nil. lra.
  - change (field question_1 "Q_difficulty") with 2.
    change (default 1 (hint_budget interview_setup)) with 1. lra.
  - destruct question_1_exact_scores as (r & Hr & _ & Ha & Hd). eauto.
Qed.

(** The values the scenario documents for Problem-Solving (7.75), Coding
    Proficiency (8.35) and Resilience (6.20) are each more than 0.6 below
    what is returned. *)
Lemma question_1_scores_not_as_documented :
  ∃ r, calculate_scores [question_1] interview_setup = Ok r ∧
       775 / 100 + 7 / 10 < Problem_Solving_Score r ∧
       835 / 100 + 6 / 10 < Coding_Proficiency_Score r ∧
       620 / 100 + 1 < Resilience_Score r.
Proof.
  exists question_1_report. split; [exact question_1_returns|].
  unfold question_1_report. simpl. lra.
Qed.

(** ** The improvement factor *)

Lemma improvement_factor_unchanged (C_initial C_target : R) :
  C_initial - C_target + epsilon ≠ 0 →
  improvement_factor C_initial C_initial C_target = Ok 0.
Proof.
  intros Hden. unfold improvement_factor. rewrite truediv_Ok by assumption.
  cbn [mbind result_bind]. f_equal. apply clamp_below.
  unfold Rdiv. rewrite Rminus_diag, Rmult_0_l. lra.
Qed.



Lemma improvement_factor_just_below (C_initial C_target : R) :
  C_target - epsilon < C_initial < C_target →
  improvement_factor C_initial C_target C_target = Ok 0.
Proof.
  intros Hlt. unfold improvement_factor. rewrite truediv_Ok by lra.
  cbn [mbind result_bind]. f_equal. apply clamp_below.
  set (d := C_initial - C_target) in *.
  assert (0 < d + epsilon) as Hpos by (unfold d; lra).
  pose proof (Rinv_0_lt_compat _ Hpos). unfold Rdiv.
  assert (d < 0) by (unfold d; lra). nra.
Qed.


(** ** Autonomy *)

Lemma autonomy_term_budget (total_hints budget : R) :
  0 < budget → autonomy_term total_hints budget = 1 - total_hints / budget.
Proof. intros Hb. unfold autonomy_term. apply Rlt_dec_true, Hb. Qed.

Lemma Rmax_0_monotone (x y : R) : x <= y → Rmax 0 x <= Rmax 0 y.
Proof.
  intros Hxy. apply Rmax_lub; [apply Rmax_l|].
  apply Rle_trans with y; [assumption | apply Rmax_r].
Qed.

(** C7. For a positive autonomy budget [total_difficulty * hint_budget],
    the Autonomy score is [10 * max(0, 1 - total_hints / budget)]; more
    hints never raise it, it is never negative, and it is 0 once the
    hints reach the budget. *)
Theorem score_autonomy_monotone (total_difficulty hint_budget h1 h2 : R) :
  let autonomy_budget := total_difficulty * hint_budget in
  0 < autonomy_budget → h1 <= h2 →
  score_autonomy h1 autonomy_budget = 10 * Rmax 0 (1 - h1 / autonomy_budget) ∧
  score_autonomy h2 autonomy_budget <= score_autonomy h1 autonomy_budget ∧
  0 <= score_autonomy h2 autonomy_budget ∧
  (autonomy_budget <= h2 → score_autonomy h2 autonomy_budget = 0).
Proof.
  intros budget Hb Hh. unfold score_autonomy.
  rewrite !autonomy_term_budget by assumption.
  pose proof (Rinv_0_lt_compat _ Hb) as Hi.
  assert (budget * / budget = 1) as H1 by (apply Rinv_r; lra).
  split; [reflexivity|]. split; [|split].
  - apply Rmult_le_compat_l; [lra|]. apply Rmax_0_monotone.
    unfold Rdiv. nra.
  - pose proof (Rmax_l 0 (1 - h2 / budget)). lra.
  - intros Hover. rewrite Rmax_left; [lra|]. unfold Rdiv. nra.
Qed.

Lemma score_autonomy_monotone_witness :
  score_autonomy 3 (2 * 1) <= score_autonomy 1 (2 * 1) ∧
  score_autonomy 3 (2 * 1) = 0.
Proof.
  pose proof (score_autonomy_monotone 2 1 1 3) as H. cbv zeta in H.
  destruct H as (_ & Hle & _ & Hzero); [lra | lra |].
  split; [exact Hle | apply Hzero; lra].
Defined.

(** ** No questions *)

Lemma round2_0 : round2 0 = 0.
Proof. apply (round2_exact 0 0). lra. Qed.

Lemma round2_1 : round2 1 = 1.
Proof. apply (round2_exact 1 100). lra. Qed.

(** C8. On the empty question list, with a configuration whose four
    weights are present and sum to a non-zero value, [calculate_scores]
    returns; the three averages are 0 and the difficulty factor is 1, in
    the values computed and in the rounded values returned. *)
Theorem no_questions (cfg : interview_config) (w : gmap string R) :
  weights cfg = Some w →
  Forall (λ k, is_Some (w !! k)) weight_keys →
  sum_values w ≠ 0 →
  ∃ r, exact_scores [] cfg = Ok r ∧
       calculate_scores [] cfg = Ok (round_report r) ∧
       Problem_Solving_Score r = 0 ∧ Coding_Proficiency_Score r = 0 ∧
       Resilience_Score r = 0 ∧ Difficulty_Factor r = 1 ∧
       Problem_Solving_Score (round_report r) = 0 ∧
       Coding_Proficiency_Score (round_report r) = 0 ∧
       Resilience_Score (round_report r) = 0 ∧
       Difficulty_Factor (round_report r) = 1.
Proof.
  intros Hw Hkeys Hsum.
  destruct (weights_present w Hkeys) as (a & b & c & d & Ha & Hb & Hc & Hd).
  assert (∃ r, exact_scores [] cfg = Ok r ∧
               Problem_Solving_Score r = 0 ∧ Coding_Proficiency_Score r = 0 ∧
               Resilience_Score r = 0 ∧ Difficulty_Factor r = 1)
    as (r & Hr & H1 & H2 & H3 & H4).
  { unfold exact_scores. cbn [for_each mbind result_bind length].
    unfold aggregate. rewrite Hw. cbn [mbind result_bind].
    unfold base_score.
    rewrite (getitem_Some _ _ _ Ha), (getitem_Some _ _ _ Hb),
      (getitem_Some _ _ _ Hc), (getitem_Some _ _ _ Hd).
    cbn [mbind result_bind]. rewrite truediv_Ok by assumption.
    cbn [mbind result_bind]. eexists. split; [reflexivity|].
    repeat split. }
  exists r. split; [exact Hr|]. split; [apply calculate_scores_Ok, Hr|].
  unfold round_report. simpl. rewrite H1, H2, H3, H4, round2_0, round2_1.
  repeat split.
Qed.

Lemma no_questions_witness :
  ∃ r, calculate_scores [] interview_setup = Ok r ∧
       Problem_Solving_Score r = 0 ∧ Coding_Proficiency_Score r = 0 ∧
       Resilience_Score r = 0 ∧ Difficulty_Factor r = 1.
Proof.
  destruct (no_questions interview_setup
              (weights_of (4 / 10) (3 / 10) (1 / 10) (2 / 10)) eq_refl)
    as (r & _ & Hc & _ & _ & _ & _ & H1 & H2 & H3 & H4).
  - unfold weight_keys. all_present.
  - rewrite sum_values_weights_of. lra.
  - exists (round_report r). split; [exact Hc|]. repeat split; assumption.
Defined.

(** ** Resilience *)

(** C9. A question whose ['S_sentiment'] entry is 0 scores exactly 0 for
    Resilience, whatever its stuck ratio: in the formula, in the closed
    form of the loop, and in the score the loop body appends. *)
Theorem resilience_zero_sentiment (q : question) :
  fields q !! "S_sentiment" = Some 0 →
  (∀ stuck, score_resilience stuck (field q "S_sentiment") = 0) ∧
  question_resilience q = 0 ∧
  (∀ st st', loop_body st q = Ok st' →
             resilience_scores st' = (resilience_scores st ++ [0])%list).
Proof.
  intros Hs. apply field_lookup in Hs.
  assert (∀ stuck, score_resilience stuck (field q "S_sentiment") = 0) as H0.
  { intros stuck. rewrite Hs. unfold score_resilience. lra. }
  split; [exact H0|]. split; [apply H0|].
  intros st st' Hst. apply loop_body_inv in Hst as ->.
  cbn [after_loop resilience_scores fmap list_fmap]. do 2 f_equal. apply H0.
Qed.

Lemma resilience_zero_sentiment_witness :
  question_resilience disheartened_question = 0.
Proof. apply (resilience_zero_sentiment disheartened_question eq_refl). Defined.

(** ** Missing keys *)

Lemma keystroke_efficiency_missing (q : question) :
  fields q !! "K_useful" = None → 0 < field q "K_total" →
  raises (keystroke_efficiency (fields q)).
Proof.
  intros Hu Hk. unfold keystroke_efficiency.
  destruct (fields q !! "K_total") as [v|] eqn:Hv.
  - rewrite (getitem_Some _ _ _ Hv). cbn [mbind result_bind].
    rewrite (field_lookup _ _ _ Hv) in Hk. rewrite Rlt_dec_true by assumption.
    apply bind_raises_l. eexists. apply getitem_None, Hu.
  - apply bind_raises_l. eexists. apply getitem_None, Hv.
Qed.

Lemma stuck_ratio_missing (q : question) :
  fields q !! "T_stuck" = None → 0 < field q "T_total" →
  raises (stuck_ratio (fields q)).
Proof.
  intros Hs Ht. unfold stuck_ratio.
  destruct (fields q !! "T_total") as [v|] eqn:Hv.
  - rewrite (getitem_Some _ _ _ Hv). cbn [mbind result_bind].
    rewrite (field_lookup _ _ _ Hv) in Ht. rewrite Rlt_dec_true by assumption.
    apply bind_raises_l. eexists. apply getitem_None, Hs.
  - apply bind_raises_l. eexists. apply getitem_None, Hv.
Qed.

Ltac skip_to H :=
  first [ apply bind_raises_l; exact H
        | apply bind_raises_r; intros ?; skip_to H ].

Lemma loop_body_lacks_key (st : loop_state) (q : question) :
  lacks_read_key q → raises (loop_body st q).
Proof.
  intros [(k & Hk & Hnone) | [[Hu Hk] | [Hs Ht]]].
  - apply (loop_body_missing st q k); assumption.
  - pose proof (keystroke_efficiency_missing q Hu Hk) as H.
    unfold loop_body. skip_to H.
  - destruct (Rle_lt_or_eq_dec _ _ Ht) as [Hpos|Hzero].
    + pose proof (stuck_ratio_missing q Hs Hpos) as H.
      unfold loop_body. skip_to H.
    + destruct (fields q !! "T_total") as [v|] eqn:Hv.
      * apply loop_body_zero_total_raises. rewrite Hv. f_equal.
        rewrite (field_lookup _ _ _ Hv) in Hzero. congruence.
      * apply (loop_body_missing st q "T_total"); [set_solver | assumption].
Qed.

Lemma aggregate_lacks_weight (st : loop_state) (n : nat)
    (cfg : interview_config) :
  lacks_weight cfg → raises (aggregate st n cfg).
Proof.
  unfold lacks_weight, aggregate. destruct (weights cfg) as [w|].
  - intros (k & Hk & Hnone). cbn [mbind result_bind].
    apply bind_raises_l. unfold base_score, weight_keys in *.
    repeat (apply elem_of_cons in Hk as [->|Hk]);
      [skip_to_raise Hnone ..|].
    apply elem_of_nil in Hk as [].
  - intros _. exists (KeyError "weights"). reflexivity.
Qed.

Lemma for_each_default_hints (qs : list question) (st : loop_state) :
  for_each (with_default_hints <$> qs) st = for_each qs st.
Proof.
  revert st. induction qs as [|q qs IH]; intros st; [reflexivity|].
  cbn [fmap list_fmap for_each].
  change (loop_body st (with_default_hints q)) with (loop_body st q).
  destruct (loop_body st q) as [st'|e]; [|reflexivity]. apply IH.
Qed.

Lemma calculate_scores_defaults (qs : list question) (cfg : interview_config) :
  calculate_scores (with_default_hints <$> qs) (with_default_budget cfg)
  = calculate_scores qs cfg.
Proof.
  unfold calculate_scores, exact_scores.
  rewrite for_each_default_hints, length_fmap. reflexivity.
Qed.

Lemma lacking_key_raises (qs : list question) (cfg : interview_config) :
  Exists lacks_read_key qs ∨ lacks_weight cfg →
  raises (calculate_scores qs cfg).
Proof.
  intros [Hq|Hw]; apply calculate_scores_raises.
  - apply exact_scores_raises. eapply Exists_impl; [exact Hq|].
    intros q Hlacks st. apply loop_body_lacks_key, Hlacks.
  - unfold exact_scores. destruct (for_each qs initial_state) as [st|e].
    + apply aggregate_lacks_weight, Hw.
    + exists e. reflexivity.
Qed.

(** C6, as the code handles missing keys.  The run fails when a question
    lacks one of the keys every iteration subscripts ([always_read]), or
    ['K_useful'] with a positive ['K_total'], or ['T_stuck'] with a
    non-negative ['T_total'], and when the configuration lacks ['weights']
    or one of the four weight entries.  The two keys read with [get] are
    recovered: a missing ['H_types'] counts as the empty list and a
    missing ['hint_budget'] as 1. *)
Theorem missing_keys (qs : list question) (cfg : interview_config) :
  (Exists lacks_read_key qs ∨ lacks_weight cfg →
   raises (calculate_scores qs cfg)) ∧
  calculate_scores (with_default_hints <$> qs) (with_default_budget cfg)
  = calculate_scores qs cfg.
Proof. split; [apply lacking_key_raises | apply calculate_scores_defaults]. Qed.

Lemma missing_keys_witness :
  raises (calculate_scores [question_without_lint] interview_setup).
Proof.
  apply (missing_keys [question_without_lint] interview_setup).
  left. constructor. left. exists "S_lint".
  split; [unfold always_read; set_solver | reflexivity].
Defined.

(** A question without ['H_types'] and a configuration without
    ['hint_budget']: both required by the data model, both absent, and a
    full report is returned. *)
Lemma defaulted_keys_recovered :
  H_types question_without_hints = None ∧
  hint_budget setup_without_budget = None ∧
  calculate_scores [question_without_hints] setup_without_budget =
    Ok hard_question_report.
Proof.
  split; [reflexivity|]. split; [reflexivity|].
  rewrite (calculate_scores_Ok _ _ hard_question_report).
  - f_equal. apply round_hard_question_report.
  - exact (exact_scores_hard_question None None eq_refl).
Qed.

(** * Further properties of [calculate_scores] *)

(** ** When the run returns *)

Ltac read H k :=
  let Hk := fresh "H" in
  assert (is_Some (fields _ !! k)) as Hk
    by (eapply Forall_forall in H; [exact H | unfold always_read; set_solver]);
  rewrite (getitem_field _ k Hk); clear Hk.

Lemma loop_body_runs (st : loop_state) (q : question) :
  runs q → loop_body st q = Ok (after_loop st [q]).
Proof.
  intros (Hp & Htotal & Hexp & Hden & Huseful & Hstuck). unfold loop_body.
  read Hp "T_think". read Hp "T_total". simpl.
  rewrite truediv_Ok by assumption. simpl.
  read Hp "E_covered". read Hp "E_total". simpl.
  rewrite truediv_Ok by assumption. simpl.
  read Hp "C_initial". read Hp "C_final". read Hp "C_target". simpl.
  unfold improvement_factor. rewrite truediv_Ok by assumption. simpl.
  assert (keystroke_efficiency (fields q) = Ok (question_efficiency q)) as ->.
  { unfold keystroke_efficiency, question_efficiency.
    read Hp "K_total". simpl.
    destruct (Rlt_dec 0 (field q "K_total")) as [Hk|]; [|reflexivity].
    rewrite (getitem_field _ _ (Huseful Hk)). reflexivity. }
  simpl. read Hp "S_lint". simpl.
  assert (stuck_ratio (fields q) = Ok (question_stuck q)) as ->.
  { unfold stuck_ratio, question_stuck.
    read Hp "T_total". simpl.
    destruct (Rlt_dec 0 (field q "T_total")) as [Ht|]; [|reflexivity].
    rewrite (getitem_field _ _ (Hstuck Ht)). reflexivity. }
  simpl. read Hp "S_sentiment". simpl. read Hp "Q_difficulty". simpl.
  unfold after_loop. simpl. do 2 f_equal.
  - rewrite sum_cons, sum_nil. fold (question_hints q). lra.
  - rewrite sum_cons, sum_nil. lra.
Qed.

Lemma for_each_runs (qs : list question) (st : loop_state) :
  Forall runs qs → for_each qs st = Ok (after_loop st qs).
Proof.
  intros Hqs. revert st. induction Hqs as [|q qs Hq _ IH]; intros st; simpl.
  - unfold after_loop. simpl. rewrite !app_nil_r, sum_nil, !Rplus_0_r.
    destruct st; reflexivity.
  - rewrite (loop_body_runs st q Hq). simpl.
    rewrite IH. f_equal. apply after_loop_cons.
Qed.

Lemma getitem_Ok_is_Some (q : question) (k : string) (v : R) :
  getitem (fields q) k = Ok v → is_Some (fields q !! k) ∧ v = field q k.
Proof.
  intros H. split; [|apply getitem_field_inv, H].
  apply getitem_Ok in H. eauto.
Qed.

Lemma keystroke_efficiency_Ok (q : question) (v : R) :
  keystroke_efficiency (fields q) = Ok v →
  is_Some (fields q !! "K_total") ∧
  (0 < field q "K_total" → is_Some (fields q !! "K_useful")).
Proof.
  unfold keystroke_efficiency. intros H.
  apply bind_Ok in H as (K_total & HK & H).
  apply getitem_Ok_is_Some in HK as [HK ->]. split; [exact HK|].
  intros Hpos. rewrite Rlt_dec_true in H by assumption.
  apply bind_Ok in H as (K_useful & HU & _).
  apply getitem_Ok_is_Some in HU as [HU _]. exact HU.
Qed.

Lemma stuck_ratio_Ok (q : question) (v : R) :
  stuck_ratio (fields q) = Ok v →
  0 < field q "T_total" → is_Some (fields q !! "T_stuck").
Proof.
  unfold stuck_ratio. intros H Hpos.
  apply bind_Ok in H as (T_total & HT & H).
  apply getitem_Ok_is_Some in HT as [HT ->].
  rewrite Rlt_dec_true in H by assumption.
  apply bind_Ok in H as (T_stuck & HS & _).
  apply getitem_Ok_is_Some in HS as [HS _]. exact HS.
Qed.

Lemma loop_body_Ok_runs (st st' : loop_state) (q : question) :
  loop_body st q = Ok st' → runs q.
Proof.
  unfold loop_body. intros H.
  apply bind_Ok in H as (T_think & H1 & H).
  apply getitem_Ok_is_Some in H1 as [P1 ->].
  apply bind_Ok in H as (T_total & H2 & H).
  apply getitem_Ok_is_Some in H2 as [P2 ->].
  apply bind_Ok in H as (ratio & H3 & H). apply truediv_inv in H3 as [N1 _].
  apply bind_Ok in H as (E_covered & H4 & H).
  apply getitem_Ok_is_Some in H4 as [P3 ->].
  apply bind_Ok in H as (E_total & H5 & H).
  apply getitem_Ok_is_Some in H5 as [P4 ->].
  apply bind_Ok in H as (coverage & H6 & H). apply truediv_inv in H6 as [N2 _].
  apply bind_Ok in H as (C_initial & H7 & H).
  apply getitem_Ok_is_Some in H7 as [P5 ->].
  apply bind_Ok in H as (C_final & H8 & H).
  apply getitem_Ok_is_Some in H8 as [P6 ->].
  apply bind_Ok in H as (C_target & H9 & H).
  apply getitem_Ok_is_Some in H9 as [P7 ->].
  apply bind_Ok in H as (improvement & H10 & H).
  apply improvement_factor_inv in H10 as [N3 _].
  apply bind_Ok in H as (efficiency & H11 & H).
  apply keystroke_efficiency_Ok in H11 as [P8 G1].
  apply bind_Ok in H as (S_lint & H12 & H).
  apply getitem_Ok_is_Some in H12 as [P9 _].
  apply bind_Ok in H as (stuck & H13 & H).
  pose proof (stuck_ratio_Ok q stuck H13) as G2.
  apply bind_Ok in H as (S_sentiment & H14 & H).
  apply getitem_Ok_is_Some in H14 as [P10 _].
  apply bind_Ok in H as (Q_difficulty & H15 & H).
  apply getitem_Ok_is_Some in H15 as [P11 _].
  unfold runs, always_read. repeat split; try assumption.
  repeat (apply Forall_cons; split; [assumption|]). constructor.
Qed.

Lemma for_each_Ok_runs (qs : list question) (st st' : loop_state) :
  for_each qs st = Ok st' → Forall runs qs.
Proof.
  revert st. induction qs as [|q qs IH]; intros st H; [constructor|].
  simpl in H. apply bind_Ok in H as (st1 & H1 & H).
  constructor; [eapply loop_body_Ok_runs, H1 | eapply IH, H].
Qed.

Lemma aggregate_usable (st : loop_state) (n : nat) (cfg : interview_config) :
  usable_config cfg → ∃ r, aggregate st n cfg = Ok r.
Proof.
  intros (w & Hw & Hkeys & Hsum).
  destruct (weights_present w Hkeys) as (a & b & c & d & Ha & Hb & Hc & Hd).
  unfold aggregate. rewrite Hw. cbn [mbind result_bind]. unfold base_score.
  rewrite (getitem_Some _ _ _ Ha), (getitem_Some _ _ _ Hb),
    (getitem_Some _ _ _ Hc), (getitem_Some _ _ _ Hd).
  cbn [mbind result_bind]. rewrite truediv_Ok by assumption.
  cbn [mbind result_bind]. eexists. reflexivity.
Qed.

Lemma aggregate_Ok_usable (st : loop_state) (n : nat) (cfg : interview_config)
    (r : report) :
  aggregate st n cfg = Ok r → usable_config cfg.
Proof.
  unfold aggregate. intros H. apply bind_Ok in H as (w & Hw & H).
  destruct (weights cfg) as [w'|] eqn:Hcfg; [|discriminate].
  injection Hw as ->. apply bind_Ok in H as (base & Hbase & _).
  unfold base_score in Hbase.
  apply bind_Ok in Hbase as (a & Ha & Hbase). apply getitem_Ok in Ha.
  apply bind_Ok in Hbase as (b & Hb & Hbase). apply getitem_Ok in Hb.
  apply bind_Ok in Hbase as (c & Hc & Hbase). apply getitem_Ok in Hc.
  apply bind_Ok in Hbase as (d & Hd & Hbase). apply getitem_Ok in Hd.
  apply truediv_inv in Hbase as [Hsum _].
  exists w. split; [exact Hcfg|]. split; [|exact Hsum].
  unfold weight_keys. repeat (apply Forall_cons; split; [eauto|]). constructor.
Qed.

Lemma exact_scores_returns_iff (qs : list question) (cfg : interview_config) :
  (∃ r, exact_scores qs cfg = Ok r) ↔ Forall runs qs ∧ usable_config cfg.
Proof.
  unfold exact_scores. split.
  - intros (r & H). apply bind_Ok in H as (st & Hst & H).
    split; [eapply for_each_Ok_runs, Hst | eapply aggregate_Ok_usable, H].
  - intros [Hqs Hcfg]. rewrite for_each_runs by assumption.
    apply aggregate_usable, Hcfg.
Qed.

Lemma evaluable_runs (q : question) : evaluable q → runs q.
Proof.
  intros (Hp & Ht & He & Hd). unfold question_keys in Hp.
  repeat (apply Forall_cons in Hp as [? Hp]).
  unfold runs, always_read. repeat split; try assumption; try (intros _; assumption).
  repeat (apply Forall_cons; split; [assumption|]). constructor.
Qed.

Lemma valid_config_usable (cfg : interview_config) :
  valid_config cfg → usable_config cfg.
Proof.
  intros (w & Hw & [Hp Hnn Hsum]). exists w.
  split; [exact Hw|]. split; [exact Hp | lra].
Qed.

(** ** The report as means and sums over the questions *)

Lemma aggregate_inv (st : loop_state) (n : nat) (cfg : interview_config)
    (r : report) :
  aggregate st n cfg = Ok r →
  ∃ w, weights cfg = Some w ∧
    Problem_Solving_Score r = avg_score (ps_scores st) n ∧
    Coding_Proficiency_Score r = avg_score (code_scores st) n ∧
    Resilience_Score r = avg_score (resilience_scores st) n ∧
    Autonomy_Score r =
      score_autonomy (total_hints_score st)
        (total_difficulty st * default 1 (hint_budget cfg)) ∧
    Difficulty_Factor r = difficulty_factor (total_difficulty st) n ∧
    Overall_Score r = score_overall (Base_Score r) (Difficulty_Factor r) ∧
    base_score w (Problem_Solving_Score r) (Coding_Proficiency_Score r)
      (Resilience_Score r) (Autonomy_Score r) = Ok (Base_Score r).
Proof.
  unfold aggregate. intros H. apply bind_Ok in H as (w & Hw & H).
  destruct (weights cfg) as [w'|]; [|discriminate]. injection Hw as ->.
  apply bind_Ok in H as (base & Hbase & H). injection H as <-.
  exists w. cbn. repeat split; try reflexivity. exact Hbase.
Qed.

(** X2. Whenever a report is returned, its three averaged scores are the
    means of the per-question formulas over the question list, its
    Autonomy score is computed from the sum of all hint weights and the sum
    of all difficulties times the hint budget (1 when absent), its
    difficulty factor from the sum of all difficulties, and its base and
    overall scores from those values: the loop is a map followed by
    sums. *)
Theorem report_closed_form (qs : list question) (cfg : interview_config)
    (r : report) :
  exact_scores qs cfg = Ok r →
  let n := length qs in
  let difficulty := sum ((λ q, field q "Q_difficulty") <$> qs) in
  Problem_Solving_Score r = avg_score (question_ps <$> qs) n ∧
  Coding_Proficiency_Score r = avg_score (question_code <$> qs) n ∧
  Resilience_Score r = avg_score (question_resilience <$> qs) n ∧
  Autonomy_Score r =
    score_autonomy (sum (question_hints <$> qs))
      (difficulty * default 1 (hint_budget cfg)) ∧
  Difficulty_Factor r = difficulty_factor difficulty n ∧
  Overall_Score r = score_overall (Base_Score r) (Difficulty_Factor r) ∧
  ∃ w, weights cfg = Some w ∧
       base_score w (Problem_Solving_Score r) (Coding_Proficiency_Score r)
         (Resilience_Score r) (Autonomy_Score r) = Ok (Base_Score r).
Proof.
  intros H n difficulty. apply exact_scores_inv, aggregate_inv in H.
  destruct H as (w & Hw & H1 & H2 & H3 & H4 & H5 & H6 & H7).
  cbn [after_loop initial_state ps_scores code_scores resilience_scores
       total_hints_score total_difficulty app] in *.
  rewrite !Rplus_0_l in *. repeat split; try assumption. eauto.
Qed.

Lemma report_closed_form_witness :
  Difficulty_Factor hard_question_report =
    difficulty_factor (sum ((λ q, field q "Q_difficulty") <$> [hard_question])) 1 ∧
  Autonomy_Score hard_question_report =
    score_autonomy (sum (question_hints <$> [hard_question]))
      (sum ((λ q, field q "Q_difficulty") <$> [hard_question])
       * default 1 (hint_budget interview_setup)).
Proof.
  pose proof (report_closed_form [hard_question] interview_setup
                hard_question_report hard_question_exact_scores) as H.
  cbv zeta in H. destruct H as (_ & _ & _ & Ha & Hd & _). split; assumption.
Defined.

(** ** Which exception is raised *)

Lemma loop_body_error (st st' : loop_state) (q : question) (e : error) :
  loop_body st q = Raise e → loop_body st' q = Raise e.
Proof.
  unfold loop_body. cbv zeta.
  repeat match goal with
  | |- (?m ≫= _) = _ → _ =>
      destruct m; cbn [mbind result_bind]; [|exact (λ H, H)]
  end.
  intros [=].
Qed.

Lemma for_each_first_failure (qs1 qs2 : list question) (q : question)
    (st : loop_state) (e : error) :
  Forall runs qs1 → loop_body initial_state q = Raise e →
  for_each (qs1 ++ q :: qs2) st = Raise e.
Proof.
  intros Hruns Hq. revert st.
  induction Hruns as [|q1 qs1 Hq1 _ IH]; intros st; simpl.
  - rewrite (loop_body_error initial_state st q e Hq). reflexivity.
  - rewrite (loop_body_runs st q1 Hq1). simpl. apply IH.
Qed.

Lemma calculate_scores_first_failure (qs1 qs2 : list question) (q : question)
    (cfg : interview_config) (e : error) :
  Forall runs qs1 → loop_body initial_state q = Raise e →
  calculate_scores (qs1 ++ q :: qs2) cfg = Raise e.
Proof.
  intros Hruns Hq. unfold calculate_scores, exact_scores.
  rewrite (for_each_first_failure qs1 qs2 q initial_state e) by assumption.
  reflexivity.
Qed.




Lemma loop_body_zero_expected (st : loop_state) (q : question) :
  is_Some (fields q !! "T_think") → is_Some (fields q !! "T_total") →
  is_Some (fields q !! "E_covered") → fields q !! "E_total" = Some 0 →
  field q "T_total" ≠ 0 →
  loop_body st q = Raise ZeroDivisionError.
Proof.
  intros H1 H2 H3 H4 Ht. unfold loop_body.
  rewrite (getitem_field _ _ H1), (getitem_field _ _ H2). simpl.
  rewrite truediv_Ok by assumption. simpl.
  rewrite (getitem_field _ _ H3), (getitem_Some _ _ _ H4). simpl.
  rewrite truediv_zero by reflexivity. reflexivity.
Qed.

(** X5. The division by [E_total] on line 34 has no guard: a question
    with [E_total = 0] (its timing entries and ['E_covered'] present,
    [T_total] non-zero) makes the call raise [ZeroDivisionError], wherever
    it stands after questions that run. *)
Theorem zero_expected_elements_raises (qs1 qs2 : list question) (q : question)
    (cfg : interview_config) :
  Forall runs qs1 →
  is_Some (fields q !! "T_think") → is_Some (fields q !! "T_total") →
  is_Some (fields q !! "E_covered") → fields q !! "E_total" = Some 0 →
  field q "T_total" ≠ 0 →
  calculate_scores (qs1 ++ q :: qs2) cfg = Raise ZeroDivisionError.
Proof.
  intros Hruns H1 H2 H3 H4 Ht. apply calculate_scores_first_failure.
  - exact Hruns.
  - apply loop_body_zero_expected; assumption.
Qed.

Lemma zero_expected_elements_raises_witness :
  calculate_scores [question_1; uncovered_question] interview_setup
  = Raise ZeroDivisionError.
Proof.
  apply (zero_expected_elements_raises [question_1] [] uncovered_question).
  - constructor; [apply evaluable_runs, evaluable_question_1 | constructor].
  - eexists; reflexivity.
  - eexists; reflexivity.
  - eexists; reflexivity.
  - reflexivity.
  - eval_fields. lra.
Defined.

(** ** Failures of the configuration *)







(** ** Entries of [weights] beyond the four categories *)

Lemma base_score_values (w : gmap string R) (a b c d x1 x2 x3 x4 : R) :
  w !! "ps" = Some a → w !! "code" = Some b →
  w !! "resilience" = Some c → w !! "autonomy" = Some d →
  base_score w x1 x2 x3 x4 =
    truediv (a * x1 + b * x2 + c * x3 + d * x4) (sum_values w).
Proof.
  intros Ha Hb Hc Hd. unfold base_score.
  rewrite (getitem_Some _ _ _ Ha), (getitem_Some _ _ _ Hb),
    (getitem_Some _ _ _ Hc), (getitem_Some _ _ _ Hd). reflexivity.
Qed.

(** X8. The denominator of the base score is the sum of every entry of
    [weights], not of the four that are used: an entry under any other key
    leaves the numerator as it is and adds its value to the denominator. *)
Theorem extra_weight_counts (w : gmap string R) (k : string)
    (v a b c d x1 x2 x3 x4 : R) :
  k ∉ weight_keys → w !! k = None →
  w !! "ps" = Some a → w !! "code" = Some b →
  w !! "resilience" = Some c → w !! "autonomy" = Some d →
  base_score w x1 x2 x3 x4 =
    truediv (a * x1 + b * x2 + c * x3 + d * x4) (sum_values w) ∧
  base_score (<[k:=v]> w) x1 x2 x3 x4 =
    truediv (a * x1 + b * x2 + c * x3 + d * x4) (sum_values w + v).
Proof.
  intros Hk Hnone Ha Hb Hc Hd. split; [apply base_score_values; assumption|].
  unfold weight_keys in Hk. rewrite !not_elem_of_cons in Hk.
  destruct Hk as (K1 & K2 & K3 & K4 & _).
  rewrite (base_score_values _ a b c d).
  - rewrite sum_values_insert by assumption. f_equal. lra.
  - rewrite lookup_insert_ne by assumption. exact Ha.
  - rewrite lookup_insert_ne by assumption. exact Hb.
  - rewrite lookup_insert_ne by assumption. exact Hc.
  - rewrite lookup_insert_ne by assumption. exact Hd.
Qed.

Lemma extra_weight_counts_witness :
  base_score (<["communication" := 1]>
                (weights_of (4 / 10) (3 / 10) (1 / 10) (2 / 10)))
    10 10 10 10 = Ok 5.
Proof.
  destruct (extra_weight_counts
              (weights_of (4 / 10) (3 / 10) (1 / 10) (2 / 10))
              "communication" 1 (4 / 10) (3 / 10) (1 / 10) (2 / 10)
              10 10 10 10) as [_ H]; try reflexivity.
  - unfold weight_keys. rewrite !not_elem_of_cons.
    repeat split; [discriminate ..|]. apply not_elem_of_nil.
  - rewrite H, sum_values_weights_of, truediv_Ok by lra. f_equal. lra.
Defined.

(** ** A floor under the Problem-Solving score *)

Lemma think_ratio_term_floor (r : R) :
  0 <= r <= 1 → 51 / 100 < think_ratio_term r.
Proof.
  intros Hr. unfold think_ratio_term.
  pose proof (exp_ineq1_le (- (r - 3 / 10) ^ 2)) as He.
  destruct (Req_dec (- (r - 3 / 10) ^ 2) 0) as [H0|Hne].
  - rewrite H0, exp_0. lra.
  - pose proof (exp_ineq1 _ Hne) as Hlt. simpl in *. nra.
Qed.

Lemma question_ps_floor (q : question) :
  valid_question q → 204 / 100 < question_ps q <= 10.
Proof.
  intros Hq. pose proof (question_ps_bounds q Hq) as [_ Hup].
  split; [|exact Hup]. destruct Hq.
  unfold question_ps, score_ps.
  pose proof (ratio_bounds _ _ vq_covered0 vq_expected0) as Hc.
  pose proof (ratio_bounds _ _ vq_think0 vq_total0) as Hr.
  pose proof (think_ratio_term_floor _ Hr) as Hfloor.
  pose proof (think_ratio_term_bounds (field q "T_think" / field q "T_total"))
    as [_ Hle].
  rewrite Rmin_right by assumption. lra.
Qed.

Lemma avg_score_between (lo hi : R) (xs : list R) :
  Forall (λ x, lo <= x <= hi) xs → xs ≠ [] →
  lo <= avg_score xs (length xs) <= hi.
Proof.
  intros Hxs Hne. unfold avg_score.
  assert (0 < length xs)%nat as Hn by (destruct xs; [contradiction | simpl; lia]).
  case_decide; [|lia].
  pose proof (sum_bounds lo hi xs Hxs) as Hs.
  assert (0 < INR (length xs)) as Hpos by (apply lt_0_INR; lia).
  pose proof (Rinv_0_lt_compat _ Hpos) as Hi.
  assert (INR (length xs) * / INR (length xs) = 1) as H1 by (apply Rinv_r; lra).
  unfold Rdiv. split.
  - apply Rle_trans with (lo * INR (length xs) * / INR (length xs)).
    + rewrite Rmult_assoc, H1. lra.
    + apply Rmult_le_compat_r; lra.
  - apply Rle_trans with (hi * INR (length xs) * / INR (length xs)).
    + apply Rmult_le_compat_r; lra.
    + rewrite Rmult_assoc, H1. lra.
Qed.

(** X10. On a non-empty list of questions within the contract, the
    Problem-Solving score that is computed is above 2.04, and what is
    returned is at least 2.04: with the think ratio between 0 and 1 the
    think-ratio term stays above 0.51, whatever the coverage. *)
Theorem problem_solving_floor (qs : list question) (cfg : interview_config)
    (r : report) :
  Forall valid_question qs → qs ≠ [] → exact_scores qs cfg = Ok r →
  204 / 100 < Problem_Solving_Score r <= 10 ∧
  204 / 100 <= Problem_Solving_Score (round_report r) <= 10.
Proof.
  intros Hqs Hne Hr.
  apply exact_scores_inv, aggregate_inv in Hr as (w & _ & Hps & _).
  cbn [after_loop initial_state ps_scores app] in Hps.
  assert (204 / 100 < Problem_Solving_Score r <= 10) as Hb.
  { rewrite Hps. rewrite <- (length_fmap question_ps qs).
    assert (∃ lo, 204 / 100 < lo ∧
                  Forall (λ x, lo <= x <= 10) (question_ps <$> qs))
      as (lo & Hlo & Hall).
    { clear Hps Hne. induction Hqs as [|q qs Hq _ (lo & Hlo & IH)].
      - exists 3. split; [lra | constructor].
      - pose proof (question_ps_floor q Hq) as [Hq1 Hq2].
        exists (Rmin lo (question_ps q)). split.
        + apply Rmin_glb_lt; assumption.
        + rewrite fmap_cons. constructor.
          * split; [apply Rmin_r | assumption].
          * eapply Forall_impl; [exact IH|]. intros x [Hx1 Hx2].
            split; [|assumption].
            apply Rle_trans with lo; [apply Rmin_l | assumption]. }
    pose proof (avg_score_between lo 10 _ Hall) as Havg.
    destruct Havg as [H1 H2]; [destruct qs; [contradiction | discriminate]|].
    lra. }
  split; [exact Hb|]. cbn [round_report Problem_Solving_Score].
  unfold round2.
  pose proof (round_half_even_ge (Problem_Solving_Score r * 100) 204
                ltac:(lra)) as Hge.
  pose proof (round_half_even_le (Problem_Solving_Score r * 100) 1000
                ltac:(lra)) as Hle.
  apply IZR_le in Hge, Hle. lra.
Qed.

Lemma problem_solving_floor_witness :
  204 / 100 <= Problem_Solving_Score question_1_report <= 10.
Proof.
  destruct question_1_exact_scores as (r & Hr & Hround & _).
  rewrite <- Hround.
  apply (problem_solving_floor [question_1] interview_setup r).
  - constructor; [exact valid_question_1 | constructor].
  - discriminate.
  - exact Hr.
Defined.

(** ** No hint allowance *)

Lemma score_autonomy_no_budget (total_hints denominator : R) :
  denominator <= 0 → score_autonomy total_hints denominator = 10.
Proof.
  intros Hd. unfold score_autonomy, autonomy_term.
  rewrite Rlt_dec_false by lra. rewrite Rmax_right by lra. lra.
Qed.

(** X11. When the total difficulty times the hint budget is zero or
    negative (a hint budget of 0, say), the Autonomy score is 10 however
    many hints were used; with a positive product and no hints it is 10 as
    well. *)
Theorem autonomy_without_budget (qs : list question) (cfg : interview_config)
    (r : report) :
  exact_scores qs cfg = Ok r →
  (sum ((λ q, field q "Q_difficulty") <$> qs) * default 1 (hint_budget cfg)
     <= 0 ∨ sum (question_hints <$> qs) = 0) →
  Autonomy_Score r = 10 ∧ Autonomy_Score (round_report r) = 10.
Proof.
  intros Hr Hcase.
  apply exact_scores_inv, aggregate_inv in Hr as (w & _ & _ & _ & _ & Ha & _).
  cbn [after_loop initial_state total_hints_score total_difficulty] in Ha.
  rewrite !Rplus_0_l in Ha.
  assert (Autonomy_Score r = 10) as H10.
  { rewrite Ha. destruct Hcase as [Hb|Hh].
    - apply score_autonomy_no_budget, Hb.
    - rewrite Hh. apply score_autonomy_no_hints. }
  split; [exact H10|]. cbn [round_report Autonomy_Score].
  rewrite H10. apply (round2_exact 10 1000). lra.
Qed.

Lemma autonomy_without_budget_witness :
  ∃ r, exact_scores [question_1] no_allowance_setup = Ok r ∧
       Autonomy_Score r = 10.
Proof.
  destruct (proj2 (exact_scores_returns_iff [question_1] no_allowance_setup))
    as [r Hr].
  { split.
    - constructor; [apply evaluable_runs, evaluable_question_1 | constructor].
    - apply valid_config_usable. exact valid_interview_setup. }
  exists r. split; [exact Hr|].
  apply (autonomy_without_budget [question_1] no_allowance_setup r Hr).
  left. change (default 1 (hint_budget no_allowance_setup)) with 0. lra.
Defined.

(** ** The rounding of the report *)

Lemma round_half_even_error (y : R) :
  - (1 / 2) <= IZR (round_half_even y) - y <= 1 / 2.
Proof.
  unfold round_half_even. pose proof (Int_part_bounds y) as Hb.
  destruct (Rlt_dec (y - IZR (Int_part y)) (1 / 2)); [lra|].
  destruct (Rlt_dec (1 / 2) (y - IZR (Int_part y))).
  - rewrite plus_IZR. lra.
  - destruct (Z.even (Int_part y)); [|rewrite plus_IZR]; lra.
Qed.

Lemma round2_error (x : R) : - (5 / 1000) <= round2 x - x <= 5 / 1000.
Proof.
  unfold round2. pose proof (round_half_even_error (x * 100)). lra.
Qed.

Lemma round2_idempotent (x : R) : round2 (round2 x) = round2 x.
Proof. apply (round2_exact _ (round_half_even (x * 100))). reflexivity. Qed.

(** ** The example usage *)

Lemma exp_four_hundredth_bounds :
  399 / 400 < exp (- (1 / 400)) < 400 / 401.
Proof.
  split.
  - pose proof (exp_ineq1 (- (1 / 400))). lra.
  - rewrite exp_Ropp. pose proof (exp_ineq1 (1 / 400)) as H.
    assert (401 / 400 < exp (1 / 400)) as Hlt by lra.
    apply Rinv_lt_contravar in Hlt; [|pose proof (exp_pos (1 / 400)); nra].
    lra.
Qed.

Lemma valid_question_2 : valid_question question_2.
Proof.
  split; eval_fields; try lra.
  - unfold question_keys. all_present.
  - simpl. repeat constructor; lra.
Qed.

Lemma evaluable_question_2 : evaluable question_2.
Proof.
  apply valid_question_evaluable; [exact valid_question_2|].
  unfold improvement_denominator, epsilon. eval_fields. lra.
Qed.

Lemma question_2_ps : 799 / 100 < question_ps question_2 < 79901 / 10000.
Proof.
  unfold question_ps, score_ps, think_ratio_term. eval_fields.
  replace (- (300 / 1200 - 3 / 10) ^ 2) with (- (1 / 400)) by (simpl; lra).
  pose proof exp_four_hundredth_bounds as He.
  rewrite Rmin_right by lra. lra.
Qed.

Lemma question_2_code : 85545 / 10000 < question_code question_2 < 85546 / 10000.
Proof.
  unfold question_code, question_improvement, question_efficiency,
    improvement_denominator, score_code, epsilon. eval_fields.
  rewrite Rlt_dec_true by lra.
  rewrite clamp_inside by lra. lra.
Qed.

Lemma question_2_resilience : question_resilience question_2 = 6125 / 1000.
Proof.
  unfold question_resilience, question_stuck, score_resilience. eval_fields.
  rewrite Rlt_dec_true by lra. lra.
Qed.

Lemma avg_score_pair (x y : R) : avg_score [x; y] 2 = (x + y) / 2.
Proof.
  unfold avg_score. case_decide; [|lia].
  rewrite !sum_cons, sum_nil. simpl INR. f_equal; lra.
Qed.

Lemma final_scores_exact :
  ∃ r, exact_scores candidate_interview_data interview_setup = Ok r ∧
       round_report r = final_scores_report.
Proof.
  destruct (proj2 (exact_scores_returns_iff candidate_interview_data
                     interview_setup)) as [r Hr].
  { split.
    - apply Forall_cons_2; [apply evaluable_runs, evaluable_question_1|].
      apply Forall_cons_2; [apply evaluable_runs, evaluable_question_2|].
      constructor.
    - apply valid_config_usable, valid_interview_setup. }
  exists r. split; [exact Hr|].
  apply exact_scores_inv, aggregate_inv in Hr
    as (w & Hw & Hps & Hcode & Hres & Haut & Hdf & Hov & Hbase).
  injection Hw as <-.
  cbn [candidate_interview_data after_loop initial_state ps_scores code_scores
       resilience_scores total_hints_score total_difficulty app fmap list_fmap
       length] in *.
  rewrite avg_score_pair in Hps, Hcode, Hres.
  rewrite question_1_resilience, question_2_resilience in Hres.
  assert (Autonomy_Score r = 2) as Haut2.
  { rewrite Haut. unfold score_autonomy, autonomy_term, question_hints.
    change (default [] (H_types question_1)) with [1].
    change (default [] (H_types question_2)) with [1; 2].
    change (default 1 (hint_budget interview_setup)) with 1.
    rewrite !sum_cons, !sum_nil. eval_fields.
    rewrite Rlt_dec_true by lra. rewrite Rmax_right by lra. lra. }
  assert (Difficulty_Factor r = 5 / 6) as Hdf2.
  { rewrite Hdf. unfold difficulty_factor. case_decide; [|lia].
    rewrite !sum_cons, !sum_nil. eval_fields. simpl INR. lra. }
  rewrite base_score_weights_of in Hbase by lra. injection Hbase as Hbase.
  pose proof question_1_ps. pose proof question_1_code.
  pose proof question_2_ps. pose proof question_2_code.
  unfold score_overall in Hov. rewrite Hdf2 in Hov.
  unfold round_report, final_scores_report. rewrite Hov, Haut2, Hdf2.
  rewrite (round2_near (Problem_Solving_Score r) 823),
    (round2_near (Coding_Proficiency_Score r) 878),
    (round2_near (Resilience_Score r) 676),
    (round2_near 2 200), (round2_near (5 / 6) 83),
    (round2_near (Base_Score r) 700),
    (round2_near (Base_Score r * _) 793) by lra.
  reflexivity.
Qed.

(** X15. The example usage: for the two questions and the weights of
    lines 93-125, [final_scores] is Problem-Solving 8.23, Coding
    Proficiency 8.78, Resilience 6.76, Autonomy 2.0, Overall 7.93, with
    base score 7.0 and difficulty factor 0.83. *)
Theorem final_scores_value : final_scores = Ok final_scores_report.
Proof.
  destruct final_scores_exact as (r & Hr & Hround).
  unfold final_scores. rewrite (calculate_scores_Ok _ _ _ Hr), Hround.
  reflexivity.
Qed.

(** ** An interview without questions *)




(** * Properties stated with binary64 rounding in view *)

(** ** Ranges of the competency scores *)

(** C1, as the code keeps it.  On every list of questions that satisfies
    the contract of section 3, each of the four competency values of a
    returned report (average Problem-Solving, Coding Proficiency and
    Resilience, and Autonomy) lies in [0,10], before the final rounding
    and after it.  Nothing of the kind is stated of the base score: see
    [binary64_base_score_above_ten]. *)
Theorem competency_scores_in_range (qs : list question)
    (cfg : interview_config) (r : report) :
  Forall valid_question qs → exact_scores qs cfg = Ok r →
  competencies_in_range r ∧
  competencies_in_range (round_report r) ∧
  calculate_scores qs cfg = Ok (round_report r).
Proof.
  intros Hqs Hr. pose proof (calculate_scores_Ok _ _ _ Hr) as Hc.
  apply exact_scores_inv, aggregate_inv in Hr
    as (w & _ & H1 & H2 & H3 & H4 & _).
  destruct (after_loop_valid qs Hqs) as (F1 & L1 & F2 & L2 & F3 & L3 & Hh).
  assert (competencies_in_range r) as Hrange.
  { unfold competencies_in_range. rewrite H1, H2, H3, H4.
    split; [apply avg_score_bounds; assumption|].
    split; [apply avg_score_bounds; assumption|].
    split; [apply avg_score_bounds; assumption|].
    apply score_autonomy_bounds, Hh. }
  split; [exact Hrange|]. split; [|exact Hc].
  destruct Hrange as (B1 & B2 & B3 & B4). unfold competencies_in_range.
  cbn [round_report Problem_Solving_Score Coding_Proficiency_Score
       Resilience_Score Autonomy_Score].
  repeat split; apply (round2_bounds _ 0 10); assumption.
Qed.

Lemma competency_scores_in_range_witness :
  competencies_in_range question_1_report.
Proof.
  destruct question_1_exact_scores as (r & Hr & Hround & _).
  rewrite <- Hround.
  apply (competency_scores_in_range [question_1] interview_setup r).
  - constructor; [exact valid_question_1 | constructor].
  - exact Hr.
Defined.

(** In binary64 the base score leaves [0,10]: with no questions and the
    non-negative weights [{ps: 0, code: 0, resilience: 0, autonomy: 0.49}]
    the numerator [0.49 * 10] rounds to 4.9000000000000004, and dividing
    it by 0.49 gives 10.000000000000002. *)
Lemma binary64_base_score_above_ten :
  ∃ r, Binary64.aggregate Binary64.initial_state 0
         Binary64.autonomy_only_setup = Ok r ∧
       Binary64.Base_Score r = 10.000000000000002%float ∧
       (10 <? Binary64.Base_Score r)%float = true.
Proof.
  eexists. split; [vm_compute; reflexivity|].
  split; vm_compute; reflexivity.
Qed.

(** ** The improvement factor at its end points *)




(** In binary64 the factor does reach 1 from above once the gap is so
    large that adding [epsilon] no longer changes it. *)
Lemma binary64_improvement_factor_reaches_one :
  Binary64.improvement_factor 1e11 0 0 = Ok 1%float ∧
  Binary64.improvement_factor 2 1 1 = Ok 0.99999900000100006%float.
Proof. split; vm_compute; reflexivity. Qed.

(** ** Rescaling the weights *)





(** ** The order of the questions in binary64 *)

(** X3. In binary64 the order of the questions can change the report.
    Line 52 adds the hint weights to a running total, and float addition
    is not associative: three questions with [H_types] [0.1], [0.2] and
    [3] total 3.2999999999999998 in this order and 3.3000000000000003 in
    the reverse order; over a total difficulty of 8 and a hint budget of
    1 the Autonomy score is returned as 5.88 in the first order and as
    5.87 in the second. *)
Theorem binary64_question_order_matters :
  ∃ hints hints' : list (list float),
    hints ≡ₚ hints' ∧
    Binary64.total_hints hints = 3.2999999999999998%float ∧
    Binary64.total_hints hints' = 3.3000000000000003%float ∧
    Binary64.hundredths
      (Binary64.score_autonomy (Binary64.total_hints hints) (8 * 1))
      = Some 588%Z ∧
    Binary64.hundredths
      (Binary64.score_autonomy (Binary64.total_hints hints') (8 * 1))
      = Some 587%Z.
Proof.
  exists [[0.1]; [0.2]; [3]]%float, [[3]; [0.2]; [0.1]]%float.
  split; [exact (Permutation_rev [[0.1]; [0.2]; [3]]%float)|].
  repeat split; vm_compute; reflexivity.
Qed.

(** ** The zero of the improvement denominator *)

(** X6. The [epsilon] of line 39 moves the zero of the denominator
    rather than removing it: in binary64, whenever [C_initial - C_target]
    evaluates to [-1e-6] the denominator is 0 and line 40 raises
    [ZeroDivisionError], whatever [C_final] is.  [C_initial = 0] with
    [C_target = 1e-6] is such a pair. *)
Theorem binary64_epsilon_moves_the_pole (C_initial C_final C_target : float) :
  (C_initial - C_target)%float = (- 1e-6)%float →
  Binary64.improvement_factor C_initial C_final C_target
  = Raise ZeroDivisionError.
Proof.
  intros H. unfold Binary64.improvement_factor, Binary64.truediv.
  rewrite H. reflexivity.
Qed.

Lemma binary64_epsilon_moves_the_pole_witness :
  Binary64.improvement_factor 0 5 1e-6 = Raise ZeroDivisionError.
Proof.
  apply (binary64_epsilon_moves_the_pole 0 5 1e-6)%float. reflexivity.
Defined.

(** ** The think-ratio term *)

(** X9. The [min(1, ...)] of line 34 never takes effect: the think-ratio
    term is at most 1 for every ratio.  A think ratio of 0.3 gives the
    largest Problem-Solving score a given coverage can have,
    [10 * (0.6 * coverage + 0.4)]. *)
Theorem think_ratio_term_shape (coverage r : R) :
  Rmin 1 (think_ratio_term r) = think_ratio_term r ∧
  score_ps coverage r <= score_ps coverage (3 / 10) ∧
  score_ps coverage (3 / 10) = 10 * (6 / 10 * coverage + 4 / 10).
Proof.
  pose proof (think_ratio_term_bounds r) as [_ Hle].
  assert (Rmin 1 (think_ratio_term r) = think_ratio_term r) as Hmin
    by (apply Rmin_right, Hle).
  split; [exact Hmin|]. unfold score_ps. rewrite Hmin.
  rewrite think_ratio_term_peak, (Rmin_left 1 1) by lra.
  split; lra.
Qed.

(** ** Rounding *)

(** X12. Each of the seven returned values is within 0.01 of the value
    computed before rounding, and rounding a returned report again
    changes nothing. *)
Theorem rounding_is_presentation (qs : list question) (cfg : interview_config)
    (r : report) :
  calculate_scores qs cfg = Ok r →
  round_report r = r ∧
  ∃ r0, exact_scores qs cfg = Ok r0 ∧
    Rabs (Problem_Solving_Score r - Problem_Solving_Score r0) < 1 / 100 ∧
    Rabs (Coding_Proficiency_Score r - Coding_Proficiency_Score r0)
      < 1 / 100 ∧
    Rabs (Resilience_Score r - Resilience_Score r0) < 1 / 100 ∧
    Rabs (Autonomy_Score r - Autonomy_Score r0) < 1 / 100 ∧
    Rabs (Overall_Score r - Overall_Score r0) < 1 / 100 ∧
    Rabs (Base_Score r - Base_Score r0) < 1 / 100 ∧
    Rabs (Difficulty_Factor r - Difficulty_Factor r0) < 1 / 100.
Proof.
  intros H. apply calculate_scores_inv in H as (r0 & H0 & ->). split.
  - unfold round_report. cbn. rewrite !round2_idempotent. reflexivity.
  - exists r0. split; [exact H0|]. cbn.
    repeat split;
      (eapply Rle_lt_trans; [apply Rabs_le, round2_error | lra]).
Qed.

Lemma rounding_is_presentation_witness :
  round_report question_1_report = question_1_report.
Proof.
  apply (rounding_is_presentation [question_1] interview_setup).
  exact question_1_returns.
Defined.

(** ** The clamp of the improvement factor *)

(** X14. For [C_initial] above [C_target] the improvement factor always
    exists and lies in [0,1]; it is 0 when the final complexity is no
    better than the initial one, and it never decreases when the final
    complexity gets smaller. *)
Theorem improvement_factor_clamped (C_initial C_final C_final' C_target : R) :
  C_target < C_initial →
  ∃ v v', improvement_factor C_initial C_final C_target = Ok v ∧
          improvement_factor C_initial C_final' C_target = Ok v' ∧
          0 <= v <= 1 ∧
          (C_initial <= C_final → v = 0) ∧
          (C_final' <= C_final → v <= v').
Proof.
  intros Hlt. assert (0 < epsilon) as He by (unfold epsilon; lra).
  set (d := C_initial - C_target + epsilon).
  assert (0 < d) as Hd by (unfold d; lra).
  pose proof (Rinv_0_lt_compat d Hd) as Hi.
  unfold improvement_factor. fold d. rewrite !truediv_Ok by lra.
  cbn [mbind result_bind]. do 2 eexists.
  split; [reflexivity|]. split; [reflexivity|].
  split; [apply clamp_bounds|]. split.
  - intros Hworse. apply clamp_below. unfold Rdiv. nra.
  - intros Hbetter. apply Rmax_0_monotone.
    apply Rle_min_compat_l. unfold Rdiv. nra.
Qed.

Lemma improvement_factor_clamped_witness :
  ∃ v v', improvement_factor 2 (3 / 2) 1 = Ok v ∧
          improvement_factor 2 1 1 = Ok v' ∧
          0 <= v <= 1 ∧ v <= v'.
Proof.
  destruct (improvement_factor_clamped 2 (3 / 2) 1 1 ltac:(lra))
    as (v & v' & Hv & Hv' & Hb & _ & Hm).
  exists v, v'. repeat split; try assumption; try apply Hb. apply Hm. lra.
Defined.
